(** * Playright: workflow executor, workflow validation and job scheduler

    A shallow embedding of [workflow_executor.py], [automation_engine.py],
    [gemini_integration.py] (validation) and [workflow_scheduler.py], with the
    properties of the written specification stated and settled against it.

    Conventions of the embedding:
    - a Python [dict] is an insertion-ordered association list with unique
      keys ([dict_set] keeps the position of a key that is already there);
    - a [datetime] is the number of microseconds on the naive local time
      line, so that a calendar day is [DAY] microseconds long; the year range
      of Python's [datetime] is not modelled;
    - Python exceptions are values of type [exn]; a function that may raise
      returns [exn + A] next to the state it leaves behind;
    - the world outside the program (browser libraries, file system, wall
      clock, the [schedule] library's time validation) is the class
      [Backend]. *)

From Stdlib Require Import ZArith List String Ascii Bool Lia.
From Stdlib Require Import DecimalString.
Import ListNotations.

Set Implicit Arguments.
Set Warnings "-notation-for-abbreviation".
Local Open Scope string_scope.
Local Open Scope Z_scope.

(** ** Python values *)

(** The values a step field can hold (JSON scalars; floats are left out). *)
Inductive scalar : Type :=
| SNone
| SBool (b : bool)
| SInt (z : Z)
| SStr (s : string).

(** Truthiness, as tested by [if not x]. *)
Definition truthy (v : scalar) : bool :=
  match v with
  | SNone => false
  | SBool b => b
  | SInt z => negb (z =? 0)
  | SStr s => negb (s =? "")%string
  end.

(** [x.get(k)] yields [None] for a missing key. *)
Definition or_none (o : option scalar) : scalar :=
  match o with Some v => v | None => SNone end.

Definition nat_to_string (n : nat) : string :=
  NilEmpty.string_of_uint (Nat.to_uint n).

Definition Z_to_string (z : Z) : string :=
  NilZero.string_of_int (Z.to_int z).

(** [str(v)], as used by f-strings. *)
Definition py_str (v : scalar) : string :=
  match v with
  | SNone => "None"
  | SBool true => "True"
  | SBool false => "False"
  | SInt z => Z_to_string z
  | SStr s => s
  end.

Definition type_name (v : scalar) : string :=
  match v with
  | SNone => "NoneType"
  | SBool _ => "bool"
  | SInt _ => "int"
  | SStr _ => "str"
  end.

(** [==] between scalars: [True == 1] and [False == 0]. *)
Definition as_int (v : scalar) : option Z :=
  match v with
  | SBool b => Some (if b then 1 else 0)
  | SInt z => Some z
  | _ => None
  end.

Definition py_eqb (a b : scalar) : bool :=
  match a, b with
  | SNone, SNone => true
  | SStr s, SStr t => (s =? t)%string
  | _, _ =>
      match as_int a, as_int b with
      | Some x, Some y => x =? y
      | _, _ => false
      end
  end.

Definition is_str (v : scalar) (s : string) : bool := py_eqb v (SStr s).

(** ** Exceptions *)

Record exn : Type := Raise { exn_kind : string; exn_msg : string }.

Definition ValueError := Raise "ValueError".
Definition TypeError := Raise "TypeError".
Definition AttributeError := Raise "AttributeError".
Definition KeyError := Raise "KeyError".

(** ** Dictionaries *)

Section Dict.
Context {K V : Type} (keq : K -> K -> bool).

Definition dict : Type := list (K * V).

Fixpoint dict_get (k : K) (d : dict) : option V :=
  match d with
  | [] => None
  | (k', v) :: d' => if keq k k' then Some v else dict_get k d'
  end.

Definition dict_mem (k : K) (d : dict) : bool :=
  match dict_get k d with Some _ => true | None => false end.

(** [d[k] = v] *)
Fixpoint dict_set (k : K) (v : V) (d : dict) : dict :=
  match d with
  | [] => [(k, v)]
  | (k', v') :: d' =>
      if keq k k' then (k', v) :: d' else (k', v') :: dict_set k v d'
  end.

(** [del d[k]], for a key that is present *)
Fixpoint dict_del (k : K) (d : dict) : dict :=
  match d with
  | [] => []
  | (k', v') :: d' => if keq k k' then d' else (k', v') :: dict_del k d'
  end.

Definition dict_keys (d : dict) : list K := map fst d.
End Dict.

Notation sget := (dict_get String.eqb).
Notation smem := (dict_mem String.eqb).
Notation sset := (dict_set String.eqb).
Notation sdel := (dict_del String.eqb).

(** ** Workflows *)

(** A step is a dict from field names to scalars. *)
Definition step : Type := list (string * scalar).

(** A workflow is a dict; the value under a key is a scalar or a list of
    steps. *)
Inductive wfield : Type :=
| WScalar (v : scalar)
| WSteps (l : list step).

Definition workflow : Type := list (string * wfield).

(** ** Workflow validation ([GeminiWorkflowGenerator.validate_workflow]) *)

Definition valid_actions : list string :=
  ["navigate"; "click"; "type"; "wait"; "get_text"; "screenshot"].

Definition str_in (v : scalar) (l : list string) : bool :=
  existsb (is_str v) l.

(** The body of the loop over the steps: the message logged for step [i], if
    the step is rejected. *)
Definition validate_step (i : nat) (st : step) : option string :=
  match sget "action" st with
  | None => Some ("Step " ++ nat_to_string i ++ " missing action")
  | Some action =>
      if negb (str_in action valid_actions) then
        Some ("Step " ++ nat_to_string i ++ " has invalid action: " ++ py_str action)
      else if is_str action "navigate" then
        if negb (smem "url" st) then
          Some ("Step " ++ nat_to_string i ++ " (navigate) missing url")
        else None
      else if str_in action ["click"; "type"; "wait"; "get_text"] then
        if negb (smem "selector" st) then
          Some ("Step " ++ nat_to_string i ++ " (" ++ py_str action ++ ") missing selector")
        else None
      else if is_str action "type" then
        if negb (smem "text" st) then
          Some ("Step " ++ nat_to_string i ++ " (type) missing text")
        else None
      else None
  end.

Fixpoint validate_steps (i : nat) (l : list step) : option string :=
  match l with
  | [] => None
  | st :: l' =>
      match validate_step i st with
      | Some m => Some m
      | None => validate_steps (S i) l'
      end
  end.

Fixpoint first_missing (fields : list string) (wf : workflow) : option string :=
  match fields with
  | [] => None
  | f :: fs => if smem f wf then first_missing fs wf else Some f
  end.

(** The error the validator logs, [None] when validation passes. *)
Definition validate_workflow_log (wf : workflow) : option string :=
  match first_missing ["name"; "description"; "steps"] wf with
  | Some f => Some ("Missing required field: " ++ f)
  | None =>
      match sget "steps" wf with
      | Some (WSteps l) => validate_steps 0 l
      | _ => Some "Steps must be a list"
      end
  end.

Definition validate_workflow (wf : workflow) : bool :=
  match validate_workflow_log wf with
  | None => true
  | Some _ => false
  end.

(** ** Run results, jobs and the [schedule] library's job list *)

(** The [results] dict of [execute_workflow]. *)
Record run_result : Type := {
  workflow_name : wfield;
  start_time : string;
  steps_executed : nat;
  total_steps : nat;
  success : bool;
  errors : list string;
  screenshots : list scalar;
  extracted_data : list (scalar * scalar);
  end_time : option string
}.

(** [next_run] holds a [datetime] in the registry and its ISO text in a
    saved schedule. *)
Inductive next_run_value : Type :=
| NextRunAt (t : Z)
| NextRunText (s : string).

(** An entry of [scheduled_jobs]; optional fields are keys that may be
    absent from the dict. *)
Record job_info : Type := {
  ji_workflow : workflow;
  ji_schedule_time : option string;
  ji_interval_minutes : option Z;
  ji_repeat : bool;
  ji_created_at : string;
  ji_last_run : option string;
  ji_next_run : next_run_value;
  ji_last_result : option run_result;
  ji_last_error : option string
}.

Definition registry : Type := list (string * job_info).

(** What a job was registered with in the [schedule] library. *)
Inductive trigger : Type :=
| DailyAt (time_of_day : string)
| EveryMinutes (minutes : Z).

(** A job of the [schedule] library: its trigger, its tag and what the
    closure [job_function] captured. *)
Record lib_job : Type := {
  lj_trigger : trigger;
  lj_tag : string;
  lj_workflow : workflow
}.

(** ** The outside world *)

(** What [schedule.every(n).minutes.do(job_function)] does with the interval
    [n]: the call returns, it raises, or it does not return. *)
Inductive every_outcome : Type :=
| EveryReturns
| EveryRaises (e : exn)
| EveryHangs.

Inductive locator : Type := ByCss | ByXpath | ById | ByTagName.

(** Calls into Playwright, Selenium and the file system. *)
Inductive libcall : Type :=
| async_playwright_start
| chromium_launch (hl : bool)
| new_page
| page_goto (url : scalar)
| page_wait_for_load_state (st : string)
| page_click (selector : scalar)
| page_fill (selector text : scalar)
| page_wait_for_selector (selector timeout : scalar)
| page_text_content (selector : scalar)
| page_screenshot (path : scalar)
| page_close
| browser_close
| playwright_stop
| chromedriver_install
| webdriver_chrome (hl : bool)
| driver_get (url : scalar)
| driver_wait_presence (timeout : scalar) (b : locator) (selector : scalar)
| driver_find_element (b : locator) (selector : scalar)
| element_click
| element_clear
| element_send_keys (text : scalar)
| element_text
| driver_save_screenshot (path : scalar)
| driver_quit
| fs_makedirs (dir : string)
| fs_write_results (path : string) (r : run_result)
| fs_write_schedule (path : string) (doc : registry).

Class Backend : Type := {
  (** state of the browser, the file system and the clock *)
  Ext : Type;
  (** [datetime.now()] *)
  clock : Ext -> Z * Ext;
  (** a library call raises or returns a value *)
  lib : libcall -> Ext -> (exn + scalar) * Ext;
  (** [json.load] of a schedule file *)
  fs_read_schedule : string -> Ext -> (exn + registry) * Ext;
  (** [schedule]'s check of the time string of [every().day.at(t)]:
      the error it raises, if any *)
  at_check : string -> option exn;
  (** [schedule]'s handling of the interval of [every(n).minutes.do(f)];
      the releases of [schedule] that look for the next run in a loop
      ([while next_run <= now: next_run += period]) do not return for an
      interval that is not positive *)
  every_check : Z -> every_outcome;
  (** [datetime.isoformat()] *)
  isoformat : Z -> string;
  (** [datetime.strftime('%Y%m%d_%H%M%S')] *)
  strftime : Z -> string
}.

(** ** State *)

(** Calls of the methods of [BrowserAutomationEngine], in the order they are
    made: a record kept by the model to state which capability calls a run
    performs. *)
Inductive ecall : Type :=
| EStart
| ENavigate (url : scalar)
| EClick (selector selector_type : scalar)
| EType (selector text selector_type : scalar)
| EWait (selector timeout selector_type : scalar)
| EGetText (selector selector_type : scalar)
| EScreenshot (path : scalar)
| EClose.

(** The fields of a [BrowserAutomationEngine]; a handle is [true] once it is
    assigned, [false] while it is [None] (or, for [playwright], while the
    attribute does not exist). *)
Record engine : Type := {
  browser_type : string;
  headless : bool;
  playwright : bool;
  playwright_browser : bool;
  playwright_page : bool;
  selenium_driver : bool
}.

Definition new_engine (bt : string) (hl : bool) : engine :=
  {| browser_type := bt; headless := hl; playwright := false;
     playwright_browser := false; playwright_page := false;
     selenium_driver := false |}.

Section Program.
Context {B : Backend}.

(** The executor's and the scheduler's fields, the [schedule] library's job
    list and the outside world. *)
Record state : Type := {
  s_ext : Ext;
  s_calls : list ecall;
  ex_browser_type : string;
  ex_headless : bool;
  ex_engine : option engine;
  scheduled_jobs : registry;
  lib_jobs : list lib_job
}.

Definition with_ext (e : Ext) (s : state) : state :=
  {| s_ext := e; s_calls := s_calls s; ex_browser_type := ex_browser_type s;
     ex_headless := ex_headless s; ex_engine := ex_engine s;
     scheduled_jobs := scheduled_jobs s; lib_jobs := lib_jobs s |}.

Definition with_calls (c : list ecall) (s : state) : state :=
  {| s_ext := s_ext s; s_calls := c; ex_browser_type := ex_browser_type s;
     ex_headless := ex_headless s; ex_engine := ex_engine s;
     scheduled_jobs := scheduled_jobs s; lib_jobs := lib_jobs s |}.

Definition with_engine (g : option engine) (s : state) : state :=
  {| s_ext := s_ext s; s_calls := s_calls s; ex_browser_type := ex_browser_type s;
     ex_headless := ex_headless s; ex_engine := g;
     scheduled_jobs := scheduled_jobs s; lib_jobs := lib_jobs s |}.

Definition with_jobs (j : registry) (s : state) : state :=
  {| s_ext := s_ext s; s_calls := s_calls s; ex_browser_type := ex_browser_type s;
     ex_headless := ex_headless s; ex_engine := ex_engine s;
     scheduled_jobs := j; lib_jobs := lib_jobs s |}.

Definition with_lib_jobs (l : list lib_job) (s : state) : state :=
  {| s_ext := s_ext s; s_calls := s_calls s; ex_browser_type := ex_browser_type s;
     ex_headless := ex_headless s; ex_engine := ex_engine s;
     scheduled_jobs := scheduled_jobs s; lib_jobs := l |}.

(** ** A state and exception monad *)

Definition M (A : Type) : Type := state -> (exn + A) * state.

Definition ret {A} (a : A) : M A := fun s => (inr a, s).
Definition raise {A} (e : exn) : M A := fun s => (inl e, s).

Definition bind {A C} (m : M A) (k : A -> M C) : M C :=
  fun s =>
    match m s with
    | (inr a, s') => k a s'
    | (inl e, s') => (inl e, s')
    end.

Notation "x <- m ;; k" := (bind m (fun x => k))
  (at level 61, m at next level, right associativity).
Notation "m ;;; k" := (bind m (fun _ => k))
  (at level 61, right associativity).

Definition get_state : M state := fun s => (inr s, s).
Definition modify (f : state -> state) : M unit := fun s => (inr tt, f s).

(** [datetime.now()] *)
Definition now : M Z :=
  fun s => let (t, e) := clock (s_ext s) in (inr t, with_ext e s).

Definition call (c : libcall) : M scalar :=
  fun s => let (r, e) := lib c (s_ext s) in (r, with_ext e s).

Definition record_call (c : ecall) : M unit :=
  modify (fun s => with_calls (s_calls s ++ [c]) s).

(** ** The automation engine ([BrowserAutomationEngine]) *)

(** [self.engine.<method>]: the executor's engine, or the error of looking up
    a method on [None]. *)
Definition the_engine (method : string) : M engine :=
  fun s =>
    match ex_engine s with
    | Some g => (inr g, s)
    | None =>
        (inl (AttributeError ("'NoneType' object has no attribute '" ++ method ++ "'")), s)
    end.

Definition set_engine (f : engine -> engine) : M unit :=
  modify (fun s => with_engine (option_map f (ex_engine s)) s).

Definition set_playwright (g : engine) : engine :=
  {| browser_type := browser_type g; headless := headless g; playwright := true;
     playwright_browser := playwright_browser g;
     playwright_page := playwright_page g; selenium_driver := selenium_driver g |}.

Definition set_playwright_browser (g : engine) : engine :=
  {| browser_type := browser_type g; headless := headless g;
     playwright := playwright g; playwright_browser := true;
     playwright_page := playwright_page g; selenium_driver := selenium_driver g |}.

Definition set_playwright_page (g : engine) : engine :=
  {| browser_type := browser_type g; headless := headless g;
     playwright := playwright g; playwright_browser := playwright_browser g;
     playwright_page := true; selenium_driver := selenium_driver g |}.

Definition set_selenium_driver (g : engine) : engine :=
  {| browser_type := browser_type g; headless := headless g;
     playwright := playwright g; playwright_browser := playwright_browser g;
     playwright_page := playwright_page g; selenium_driver := true |}.

(** A method call on a handle that is still [None]. *)
Definition on_handle (present : bool) (attr : string) : M unit :=
  if present then ret tt
  else raise (AttributeError ("'NoneType' object has no attribute '" ++ attr ++ "'")).

Definition is_playwright (g : engine) : bool := (browser_type g =? "playwright")%string.

Definition _start_playwright (g : engine) : M unit :=
  call async_playwright_start ;;;
  set_engine set_playwright ;;;
  call (chromium_launch (headless g)) ;;;
  set_engine set_playwright_browser ;;;
  call new_page ;;;
  set_engine set_playwright_page.

Definition _start_selenium (g : engine) : M unit :=
  call chromedriver_install ;;;
  call (webdriver_chrome (headless g)) ;;;
  set_engine set_selenium_driver.

Definition start_browser (g : engine) : M unit :=
  record_call EStart ;;;
  if is_playwright g then _start_playwright g else _start_selenium g.

Definition navigate_to (url : scalar) (g : engine) : M unit :=
  record_call (ENavigate url) ;;;
  if is_playwright g then
    on_handle (playwright_page g) "goto" ;;;
    call (page_goto url) ;;;
    call (page_wait_for_load_state "networkidle") ;;;
    ret tt
  else
    on_handle (selenium_driver g) "get" ;;;
    call (driver_get url) ;;;
    call (driver_wait_presence (SInt 10) ByTagName (SStr "body")) ;;;
    ret tt.

(** The [if]/[elif]/[else] chain over [selector_type] of the Selenium
    branches of [click_element], [type_text] and [get_text]. *)
Definition selenium_locator (selector_type : scalar) : locator :=
  if is_str selector_type "css" then ByCss
  else if is_str selector_type "xpath" then ByXpath
  else if is_str selector_type "id" then ById
  else ByCss.

Definition click_element (selector selector_type : scalar) (g : engine) : M unit :=
  record_call (EClick selector selector_type) ;;;
  if is_playwright g then
    on_handle (playwright_page g) "click" ;;;
    call (page_click selector) ;;;
    ret tt
  else
    on_handle (selenium_driver g) "find_element" ;;;
    call (driver_find_element (selenium_locator selector_type) selector) ;;;
    call element_click ;;;
    ret tt.

Definition type_text (selector text selector_type : scalar) (g : engine) : M unit :=
  record_call (EType selector text selector_type) ;;;
  if is_playwright g then
    on_handle (playwright_page g) "fill" ;;;
    call (page_fill selector text) ;;;
    ret tt
  else
    on_handle (selenium_driver g) "find_element" ;;;
    call (driver_find_element (selenium_locator selector_type) selector) ;;;
    call element_clear ;;;
    call (element_send_keys text) ;;;
    ret tt.

Fixpoint repeat_string (s : string) (n : nat) : string :=
  match n with
  | O => ""
  | S n' => s ++ repeat_string s n'
  end.

(** [v * n] for an [int] [n]. *)
Definition py_mul (v : scalar) (n : Z) : exn + scalar :=
  match v with
  | SInt z => inr (SInt (z * n))
  | SBool b => inr (SInt ((if b then 1 else 0) * n))
  | SStr s => inr (SStr (repeat_string s (Z.to_nat n)))
  | SNone => inl (TypeError "unsupported operand type(s) for *: 'NoneType' and 'int'")
  end.

Definition lift {A} (r : exn + A) : M A :=
  match r with
  | inr a => ret a
  | inl e => raise e
  end.

Definition wait_for_element (selector timeout selector_type : scalar) (g : engine) : M unit :=
  record_call (EWait selector timeout selector_type) ;;;
  if is_playwright g then
    on_handle (playwright_page g) "wait_for_selector" ;;;
    ms <- lift (py_mul timeout 1000) ;;
    call (page_wait_for_selector selector ms) ;;;
    ret tt
  else
    if is_str selector_type "css" then
      call (driver_wait_presence timeout ByCss selector) ;;; ret tt
    else if is_str selector_type "xpath" then
      call (driver_wait_presence timeout ByXpath selector) ;;; ret tt
    else if is_str selector_type "id" then
      call (driver_wait_presence timeout ById selector) ;;; ret tt
    else ret tt.

(** [text[:50]] in the log line of [get_text]. *)
Definition py_slice_check (v : scalar) : exn + unit :=
  match v with
  | SStr _ => inr tt
  | _ => inl (TypeError ("'" ++ type_name v ++ "' object is not subscriptable"))
  end.

Definition get_text (selector selector_type : scalar) (g : engine) : M scalar :=
  record_call (EGetText selector selector_type) ;;;
  text <- (if is_playwright g then
             on_handle (playwright_page g) "text_content" ;;;
             call (page_text_content selector)
           else
             on_handle (selenium_driver g) "find_element" ;;;
             call (driver_find_element (selenium_locator selector_type) selector) ;;;
             call element_text) ;;
  lift (py_slice_check text) ;;;
  ret text.

Definition take_screenshot (path : scalar) (g : engine) : M unit :=
  record_call (EScreenshot path) ;;;
  if is_playwright g then
    on_handle (playwright_page g) "screenshot" ;;;
    call (page_screenshot path) ;;;
    ret tt
  else
    on_handle (selenium_driver g) "save_screenshot" ;;;
    call (driver_save_screenshot path) ;;;
    ret tt.

Definition when (b : bool) (m : M unit) : M unit :=
  if b then m else ret tt.

Definition close_browser (g : engine) : M unit :=
  record_call EClose ;;;
  if is_playwright g then
    when (playwright_page g) (call page_close ;;; ret tt) ;;;
    when (playwright_browser g) (call browser_close ;;; ret tt) ;;;
    (if playwright g then call playwright_stop ;;; ret tt
     else raise (AttributeError
                   "'BrowserAutomationEngine' object has no attribute 'playwright'"))
  else
    when (selenium_driver g) (call driver_quit ;;; ret tt).

(** ** The workflow executor ([WorkflowExecutor]) *)

Definition step_get (k : string) (st : step) : scalar := or_none (sget k st).

Definition step_get_default (k : string) (d : scalar) (st : step) : scalar :=
  match sget k st with
  | Some v => v
  | None => d
  end.

Definition add_extracted (key text : scalar) (r : run_result) : run_result :=
  {| workflow_name := workflow_name r; start_time := start_time r;
     steps_executed := steps_executed r; total_steps := total_steps r;
     success := success r; errors := errors r; screenshots := screenshots r;
     extracted_data := dict_set py_eqb key text (extracted_data r);
     end_time := end_time r |}.

Definition add_screenshot (path : scalar) (r : run_result) : run_result :=
  {| workflow_name := workflow_name r; start_time := start_time r;
     steps_executed := steps_executed r; total_steps := total_steps r;
     success := success r; errors := errors r;
     screenshots := screenshots r ++ [path];
     extracted_data := extracted_data r; end_time := end_time r |}.

(** [_execute_step]: the [results] it returns are the mutated dict; every
    branch mutates [results] only after its last call that can raise, so a
    step that raises leaves [results] as they were. *)
Definition _execute_step (st : step) (results : run_result) : M run_result :=
  let action := step_get "action" st in
  if is_str action "navigate" then
    let url := step_get "url" st in
    if negb (truthy url) then
      raise (ValueError "Navigate action requires 'url' parameter")
    else
      g <- the_engine "navigate_to" ;;
      navigate_to url g ;;;
      ret results
  else if is_str action "click" then
    let selector := step_get "selector" st in
    let selector_type := step_get_default "selector_type" (SStr "css") st in
    if negb (truthy selector) then
      raise (ValueError "Click action requires 'selector' parameter")
    else
      g <- the_engine "click_element" ;;
      click_element selector selector_type g ;;;
      ret results
  else if is_str action "type" then
    let selector := step_get "selector" st in
    let text := step_get "text" st in
    let selector_type := step_get_default "selector_type" (SStr "css") st in
    if negb (truthy selector) || negb (truthy text) then
      raise (ValueError "Type action requires 'selector' and 'text' parameters")
    else
      g <- the_engine "type_text" ;;
      type_text selector text selector_type g ;;;
      ret results
  else if is_str action "wait" then
    let selector := step_get "selector" st in
    let timeout := step_get_default "timeout" (SInt 10) st in
    let selector_type := step_get_default "selector_type" (SStr "css") st in
    if negb (truthy selector) then
      raise (ValueError "Wait action requires 'selector' parameter")
    else
      g <- the_engine "wait_for_element" ;;
      wait_for_element selector timeout selector_type g ;;;
      ret results
  else if is_str action "get_text" then
    let selector := step_get "selector" st in
    let selector_type := step_get_default "selector_type" (SStr "css") st in
    let key :=
      step_get_default "key"
        (SStr ("text_" ++ nat_to_string (List.length (extracted_data results)))) st in
    if negb (truthy selector) then
      raise (ValueError "Get_text action requires 'selector' parameter")
    else
      g <- the_engine "get_text" ;;
      text <- get_text selector selector_type g ;;
      ret (add_extracted key text results)
  else if is_str action "screenshot" then
    t <- now ;;
    let path :=
      step_get_default "path" (SStr ("screenshot_" ++ strftime t ++ ".png")) st in
    g <- the_engine "take_screenshot" ;;
    take_screenshot path g ;;;
    ret (add_screenshot path results)
  else
    raise (ValueError ("Unknown action: " ++ py_str action)).

(** [workflow.get("steps", [])] *)
Definition steps_of (wf : workflow) : wfield :=
  match sget "steps" wf with
  | Some v => v
  | None => WSteps []
  end.

(** [len(x)] *)
Definition py_len (x : wfield) : exn + nat :=
  match x with
  | WSteps l => inr (List.length l)
  | WScalar (SStr s) => inr (String.length s)
  | WScalar v => inl (TypeError ("object of type '" ++ type_name v ++ "' has no len()"))
  end.

(** What the [for] loop iterates over: the steps of a list, or the
    characters of a string. *)
Inductive item : Type :=
| IStep (st : step)
| IChar (c : ascii).

Definition iter_items (x : wfield) : list item :=
  match x with
  | WSteps l => map IStep l
  | WScalar (SStr s) => map IChar (list_ascii_of_string s)
  | WScalar _ => []
  end.

(** The [try] body of the loop for one item; [step.get] fails on a
    character. *)
Definition execute_item (it : item) (results : run_result) : M run_result :=
  match it with
  | IStep st => _execute_step st results
  | IChar _ => raise (AttributeError "'str' object has no attribute 'get'")
  end.

Definition step_done (r : run_result) : run_result :=
  {| workflow_name := workflow_name r; start_time := start_time r;
     steps_executed := S (steps_executed r); total_steps := total_steps r;
     success := success r; errors := errors r; screenshots := screenshots r;
     extracted_data := extracted_data r; end_time := end_time r |}.

(** [results["errors"].append(msg); results["success"] = False] *)
Definition record_failure (msg : string) (r : run_result) : run_result :=
  {| workflow_name := workflow_name r; start_time := start_time r;
     steps_executed := steps_executed r; total_steps := total_steps r;
     success := false; errors := errors r ++ [msg]; screenshots := screenshots r;
     extracted_data := extracted_data r; end_time := end_time r |}.

Definition set_end_time (t : string) (r : run_result) : run_result :=
  {| workflow_name := workflow_name r; start_time := start_time r;
     steps_executed := steps_executed r; total_steps := total_steps r;
     success := success r; errors := errors r; screenshots := screenshots r;
     extracted_data := extracted_data r; end_time := Some t |}.

(** The loop [for i, step in enumerate(..., 1)] from index [i] on: it stops
    at the first item that raises. *)
Fixpoint run_steps (i : nat) (items : list item) (results : run_result)
    (s : state) : run_result * state :=
  match items with
  | [] => (results, s)
  | it :: rest =>
      match execute_item it results s with
      | (inr results', s') => run_steps (S i) rest (step_done results') s'
      | (inl e, s') =>
          (record_failure ("Step " ++ nat_to_string i ++ " failed: " ++ exn_msg e)
             results, s')
      end
  end.

Definition initial_results (wf : workflow) : M run_result :=
  t <- now ;;
  n <- lift (py_len (steps_of wf)) ;;
  ret {| workflow_name :=
           match sget "name" wf with
           | Some v => v
           | None => WScalar (SStr "Unknown")
           end;
         start_time := isoformat t;
         steps_executed := 0;
         total_steps := n;
         success := true;
         errors := [];
         screenshots := [];
         extracted_data := [];
         end_time := None |}.

(** The [try] block: create the engine, start the browser, run the steps;
    the outer [except] records a failure to start. *)
Definition run_body (wf : workflow) (results : run_result) (s : state)
    : run_result * state :=
  let g := new_engine (ex_browser_type s) (ex_headless s) in
  match start_browser g (with_engine (Some g) s) with
  | (inr _, s') => run_steps 1 (iter_items (steps_of wf)) results s'
  | (inl e, s') =>
      (record_failure ("Workflow execution failed: " ++ exn_msg e) results, s')
  end.

(** The [finally] block: close the browser (an error here replaces the
    [return]), stamp the end time, return. *)
Definition release : M unit :=
  s <- get_state ;;
  match ex_engine s with
  | Some g => close_browser g
  | None => ret tt
  end.

Definition run_finally (results : run_result) : M run_result :=
  release ;;;
  t <- now ;;
  ret (set_end_time (isoformat t) results).

Definition execute_workflow (wf : workflow) : M run_result :=
  results <- initial_results wf ;;
  fun s =>
    let (results', s') := run_body wf results s in
    run_finally results' s'.

(** [os.path.join(a, b)] *)
Definition path_join (a b : string) : string :=
  match b with
  | String "/" _ => b
  | _ => a ++ "/" ++ b
  end.

Definition falsy_name (o : option string) : bool :=
  match o with
  | None => true
  | Some n => (n =? "")%string
  end.

Definition save_results (results : run_result) (filename : option string) : M string :=
  filename <- (if falsy_name filename then
                 t <- now ;;
                 ret ("workflow_results_" ++ strftime t ++ ".json")
               else ret (match filename with Some n => n | None => "" end)) ;;
  call (fs_makedirs "results") ;;;
  let filepath := path_join "results" filename in
  call (fs_write_results filepath results) ;;;
  ret filepath.

(** ** Time of day *)

Definition MICRO : Z := 1000000.
Definition DAY : Z := 86400 * MICRO.

(** The calendar day of a [datetime] and its time within the day. *)
Definition date_of (t : Z) : Z := t / DAY.
Definition time_of (t : Z) : Z := t mod DAY.

(** The offset of [h:m:00.000000] from midnight. *)
Definition clock_time (h m : Z) : Z := (h * 3600 + m * 60) * MICRO.

(** [t.replace(hour=h, minute=m, second=0, microsecond=0)] for fields in
    range. *)
Definition dt_replace (t h m : Z) : Z := date_of t * DAY + clock_time h m.

(** The range check of [datetime.replace]. *)
Definition hm_in_range (h m : Z) : bool :=
  (0 <=? h) && (h <=? 23) && (0 <=? m) && (m <=? 59).

(** *** [int(s)] on text *)

Definition is_space (c : ascii) : bool :=
  let n := nat_of_ascii c in
  ((9 <=? n) && (n <=? 13))%nat || (n =? 32)%nat.

Definition digit_of (c : ascii) : option Z :=
  let n := nat_of_ascii c in
  if ((48 <=? n) && (n <=? 57))%nat then Some (Z.of_nat (n - 48)) else None.

Fixpoint drop_spaces (l : list ascii) : list ascii :=
  match l with
  | c :: l' => if is_space c then drop_spaces l' else l
  | [] => []
  end.

Definition strip (l : list ascii) : list ascii :=
  rev (drop_spaces (rev (drop_spaces l))).

(** Decimal digits with single underscores between them; [seen] tells
    whether the previous character was a digit. *)
Fixpoint digits_value (acc : Z) (seen : bool) (l : list ascii) : option Z :=
  match l with
  | [] => if seen then Some acc else None
  | c :: l' =>
      match digit_of c with
      | Some d => digits_value (10 * acc + d) true l'
      | None =>
          if (c =? "_")%char && seen then digits_value acc false l' else None
      end
  end.

Definition py_int (s : string) : option Z :=
  match strip (list_ascii_of_string s) with
  | "+"%char :: l => digits_value 0 false l
  | "-"%char :: l => option_map Z.opp (digits_value 0 false l)
  | l => digits_value 0 false l
  end.

(** [s.split(':')] *)
Fixpoint split_colon (cur : string) (s : string) : list string :=
  match s with
  | EmptyString => [cur]
  | String c s' =>
      if (c =? ":")%char then cur :: split_colon "" s'
      else split_colon (cur ++ String c "") s'
  end.

(** [hour, minute = map(int, schedule_time.split(':'))]; [None] when the
    line raises. *)
Definition parse_hour_minute (schedule_time : string) : option (Z * Z) :=
  match split_colon "" schedule_time with
  | [a; b] =>
      match py_int a, py_int b with
      | Some h, Some m => Some (h, m)
      | _, _ => None
      end
  | _ => None
  end.

(** ** The scheduler ([WorkflowScheduler]) *)

Definition try_catch {A} (m : M A) (handler : exn -> M A) : M A :=
  fun s =>
    match m s with
    | (inr a, s') => (inr a, s')
    | (inl e, s') => handler e s'
    end.

(** [_get_next_run_time]: the [except] clause discards the exception, so
    the texts of the two [ValueError]s below stand for whatever [int],
    the unpacking or [replace] raise. *)
Definition _get_next_run_time (schedule_time : string) : M Z :=
  try_catch
    (hm <- lift (match parse_hour_minute schedule_time with
                 | Some hm => inr hm
                 | None => inl (ValueError "invalid time")
                 end) ;;
     n <- now ;;
     if hm_in_range (fst hm) (snd hm) then
       let next_run := dt_replace n (fst hm) (snd hm) in
       ret (if next_run <=? n then next_run + DAY else next_run)
     else raise (ValueError "hour or minute out of range"))
    (fun _ => t <- now ;; ret (t + DAY)).

Definition default_name (prefix : string) (job_name : option string) : M string :=
  if falsy_name job_name then
    s <- get_state ;;
    ret (prefix ++ nat_to_string (List.length (scheduled_jobs s) + 1))
  else ret (match job_name with Some n => n | None => "" end).

(** [schedule.every().day.at(t).do(job_function).tag(job_name)]: the time
    string is checked before the job is added. *)
Definition register_daily (wf : workflow) (schedule_time job_name : string) : M unit :=
  match at_check schedule_time with
  | Some e => raise e
  | None =>
      modify (fun s =>
        with_lib_jobs
          (lib_jobs s ++
             [{| lj_trigger := DailyAt schedule_time; lj_tag := job_name;
                 lj_workflow := wf |}]) s)
  end.

(** [schedule.every(n).minutes.do(job_function).tag(job_name)]: the job is
    added when [do] returns.  The result [None] stands for a call that does
    not return: nothing after it is run, and the state next to it is the
    state it is stuck in. *)
Definition register_interval (wf : workflow) (interval_minutes : Z)
    (job_name : string) : M (option unit) :=
  match every_check interval_minutes with
  | EveryReturns =>
      modify (fun s =>
        with_lib_jobs
          (lib_jobs s ++
             [{| lj_trigger := EveryMinutes interval_minutes; lj_tag := job_name;
                 lj_workflow := wf |}]) s) ;;;
      ret (Some tt)
  | EveryRaises e => raise e
  | EveryHangs => ret None
  end.

Definition put_job (job_name : string) (j : job_info) : M unit :=
  modify (fun s => with_jobs (sset job_name j (scheduled_jobs s)) s).

Definition schedule_workflow (wf : workflow) (schedule_time : string)
    (job_name : option string) (repeat : bool) : M string :=
  job_name <- default_name "workflow_" job_name ;;
  (if repeat then register_daily wf schedule_time job_name
   else register_daily wf schedule_time job_name) ;;;
  created <- now ;;
  next_run <- _get_next_run_time schedule_time ;;
  put_job job_name
    {| ji_workflow := wf;
       ji_schedule_time := Some schedule_time;
       ji_interval_minutes := None;
       ji_repeat := repeat;
       ji_created_at := isoformat created;
       ji_last_run := None;
       ji_next_run := NextRunAt next_run;
       ji_last_result := None;
       ji_last_error := None |} ;;;
  ret job_name.

(** [schedule_interval_workflow] returns the name of the job, raises, or
    ([None]) does not return, as the registration with the library does. *)
Definition schedule_interval_workflow (wf : workflow) (interval_minutes : Z)
    (job_name : option string) : M (option string) :=
  job_name <- default_name "interval_workflow_" job_name ;;
  registered <- register_interval wf interval_minutes job_name ;;
  match registered with
  | None => ret None
  | Some _ =>
      created <- now ;;
      t <- now ;;
      put_job job_name
        {| ji_workflow := wf;
           ji_schedule_time := None;
           ji_interval_minutes := Some interval_minutes;
           ji_repeat := true;
           ji_created_at := isoformat created;
           ji_last_run := None;
           ji_next_run := NextRunAt (t + interval_minutes * 60 * MICRO);
           ji_last_result := None;
           ji_last_error := None |} ;;;
      ret (Some job_name)
  end.

Definition set_last_run (t : string) (r : run_result) (j : job_info) : job_info :=
  {| ji_workflow := ji_workflow j; ji_schedule_time := ji_schedule_time j;
     ji_interval_minutes := ji_interval_minutes j; ji_repeat := ji_repeat j;
     ji_created_at := ji_created_at j; ji_last_run := Some t;
     ji_next_run := ji_next_run j; ji_last_result := Some r;
     ji_last_error := ji_last_error j |}.

Definition set_last_error (msg : string) (j : job_info) : job_info :=
  {| ji_workflow := ji_workflow j; ji_schedule_time := ji_schedule_time j;
     ji_interval_minutes := ji_interval_minutes j; ji_repeat := ji_repeat j;
     ji_created_at := ji_created_at j; ji_last_run := ji_last_run j;
     ji_next_run := ji_next_run j; ji_last_result := ji_last_result j;
     ji_last_error := Some msg |}.

(** [if job_name in self.scheduled_jobs: self.scheduled_jobs[job_name][...] = ...] *)
Definition update_job (job_name : string) (f : job_info -> job_info) : M unit :=
  modify (fun s =>
    match sget job_name (scheduled_jobs s) with
    | Some j => with_jobs (sset job_name (f j) (scheduled_jobs s)) s
    | None => s
    end).

Definition _execute_scheduled_workflow (wf : workflow) (job_name : string) : M unit :=
  try_catch
    (results <- execute_workflow wf ;;
     s <- get_state ;;
     (if smem job_name (scheduled_jobs s) then
        t <- now ;;
        update_job job_name (set_last_run (isoformat t) results)
      else ret tt) ;;;
     t <- now ;;
     save_results results
       (Some ("scheduled_" ++ job_name ++ "_" ++ strftime t ++ ".json")) ;;;
     ret tt)
    (fun e => update_job job_name (set_last_error (exn_msg e))).

(** [schedule.clear(tag)] *)
Definition clear_tag (tag : string) (l : list lib_job) : list lib_job :=
  filter (fun j => negb (lj_tag j =? tag)%string) l.

Definition remove_job (job_name : string) : M bool :=
  try_catch
    (modify (fun s => with_lib_jobs (clear_tag job_name (lib_jobs s)) s) ;;;
     s <- get_state ;;
     (if smem job_name (scheduled_jobs s) then
        modify (with_jobs (sdel job_name (scheduled_jobs s)))
      else ret tt) ;;;
     ret true)
    (fun _ => ret false).

Definition get_scheduled_jobs : M registry :=
  s <- get_state ;; ret (scheduled_jobs s).

Definition get_job_status (job_name : string) : M (option job_info) :=
  s <- get_state ;; ret (sget job_name (scheduled_jobs s)).

(** The copy of an entry written by [save_schedule]: a [datetime] under
    [next_run] becomes its ISO text. *)
Definition saved_entry (j : job_info) : job_info :=
  {| ji_workflow := ji_workflow j; ji_schedule_time := ji_schedule_time j;
     ji_interval_minutes := ji_interval_minutes j; ji_repeat := ji_repeat j;
     ji_created_at := ji_created_at j; ji_last_run := ji_last_run j;
     ji_next_run :=
       match ji_next_run j with
       | NextRunAt t => NextRunText (isoformat t)
       | NextRunText x => NextRunText x
       end;
     ji_last_result := ji_last_result j; ji_last_error := ji_last_error j |}.

(** [schedule_data] as built by the loop of [save_schedule]. *)
Definition schedule_data (jobs : registry) : registry :=
  map (fun kv => (fst kv, saved_entry (snd kv))) jobs.

Definition save_schedule (filename : option string) : M string :=
  filename <- (if falsy_name filename then
                 t <- now ;;
                 ret ("schedule_" ++ strftime t ++ ".json")
               else ret (match filename with Some n => n | None => "" end)) ;;
  call (fs_makedirs "schedules") ;;;
  let filepath := path_join "schedules" filename in
  s <- get_state ;;
  call (fs_write_schedule filepath (schedule_data (scheduled_jobs s))) ;;;
  ret filepath.

Definition read_schedule (filepath : string) : M registry :=
  fun s => let (r, e) := fs_read_schedule filepath (s_ext s) in (r, with_ext e s).

(** The registration of one entry of the file. *)
Definition load_job (job_name : string) (info : job_info) : M (option string) :=
  match ji_interval_minutes info with
  | Some n => schedule_interval_workflow (ji_workflow info) n (Some job_name)
  | None =>
      match ji_schedule_time info with
      | Some t =>
          name <- schedule_workflow (ji_workflow info) t (Some job_name) (ji_repeat info) ;;
          ret (Some name)
      | None => raise (KeyError "'schedule_time'")
      end
  end.

(** The loop of [load_schedule] over the entries of the file; it goes on to
    the next entry when the registration of an entry returns. *)
Fixpoint load_jobs (data : registry) : M (option unit) :=
  match data with
  | [] => ret (Some tt)
  | (job_name, info) :: rest =>
      registered <- load_job job_name info ;;
      match registered with
      | None => ret None
      | Some _ => load_jobs rest
      end
  end.

(** [load_schedule] returns ([Some tt]), raises, or ([None]) does not
    return. *)
Definition load_schedule (filepath : string) : M (option unit) :=
  data <- read_schedule filepath ;;
  modify (with_lib_jobs []) ;;;
  modify (with_jobs []) ;;;
  load_jobs data.

(** ** Loading a workflow ([WorkflowExecutor.load_workflow]) *)

Section Loading.

(** [json.load] of a workflow file: the outside world decides what the file
    holds. *)
Variable read_workflow_file : string -> Ext -> (exn + workflow) * Ext.

Definition read_workflow (filepath : string) : M workflow :=
  fun s => let (r, e) := read_workflow_file filepath (s_ext s) in (r, with_ext e s).

Definition load_workflow (filepath : string) : M workflow :=
  wf <- read_workflow filepath ;;
  if negb (validate_workflow wf) then
    raise (ValueError "Loaded workflow is invalid")
  else ret wf.

End Loading.

(** ** The job endpoints of the web interface ([web_interface.py]) *)

(** [HTTPException(status_code, detail)] *)
Record http_error : Type := HTTPException { status_code : nat; detail : string }.

(** An endpoint answers with a body or raises an [HTTPException]. *)
Definition endpoint (A : Type) : Type := state -> (http_error + A) * state.

(** [GET /jobs/{job_name}]: an entry is a dict with keys, so [not job_status]
    holds for [None] only. *)
Definition api_get_job_status (job_name : string) : endpoint job_info :=
  fun s =>
    match get_job_status job_name s with
    | (inr (Some j), s') => (inr j, s')
    | (inr None, s') => (inl (HTTPException 404 "Job not found"), s')
    | (inl e, s') => (inl (HTTPException 500 (exn_msg e)), s')
    end.

(** [DELETE /jobs/{job_name}]: the body is the message of the answer. *)
Definition api_remove_job (job_name : string) : endpoint string :=
  fun s =>
    match remove_job job_name s with
    | (inr true, s') => (inr ("Job '" ++ job_name ++ "' removed successfully"), s')
    | (inr false, s') => (inl (HTTPException 404 "Job not found"), s')
    | (inl e, s') => (inl (HTTPException 500 (exn_msg e)), s')
    end.

(** ** Vocabulary of the properties *)

Unset Implicit Arguments.

(** [stable f m]: running [m] does not change the component [f] of the
    state, whether [m] returns or raises. *)
Definition stable {X A : Type} (f : state -> X) (m : M A) : Prop :=
  forall s, f (snd (m s)) = f s.

(** Components that do not depend on the outside world. *)
Definition ext_free {X : Type} (f : state -> X) : Prop :=
  forall e s, f (with_ext e s) = f s.

(** Components that recording a call, or assigning the engine, leaves
    alone. *)
Definition calls_free {X : Type} (f : state -> X) : Prop :=
  forall c s, f (with_calls c s) = f s.

Definition engine_free {X : Type} (f : state -> X) : Prop :=
  forall g s, f (with_engine g s) = f s.

(** [returns P m]: whenever [m] returns, its value satisfies [P]. *)
Definition returns {A : Type} (P : A -> Prop) (m : M A) : Prop :=
  forall s a s', m s = (inr a, s') -> P a.

(** The fields of the results that only the run controller writes. *)
Definition same_progress (r r' : run_result) : Prop :=
  success r' = success r /\ steps_executed r' = steps_executed r /\
  errors r' = errors r /\ total_steps r' = total_steps r.

(** [keeps P m]: [m] takes states that satisfy [P] to states that satisfy
    [P], whether it returns or raises. *)
Definition keeps {A : Type} (P : state -> Prop) (m : M A) : Prop :=
  forall s, P s -> P (snd (m s)).

(** The executor holds an engine. *)
Definition engine_set (s : state) : Prop := ex_engine s <> None.

(** The name a job is registered under. *)
Definition name_for (prefix : string) (job_name : option string) (s : state) : string :=
  if falsy_name job_name then
    prefix ++ nat_to_string (List.length (scheduled_jobs s) + 1)
  else match job_name with Some n => n | None => "" end.

(** What every entry written by the scheduling operations satisfies: its
    name is not empty; an interval job has no time string, repeats, and has
    an interval that the [schedule] library registers (the entry is written
    after the registration has returned); a daily job has a time string
    that the [schedule] library accepts. *)
Definition job_ok (kv : string * job_info) : Prop :=
  fst kv <> "" /\
  match ji_interval_minutes (snd kv) with
  | Some n =>
      ji_schedule_time (snd kv) = None /\ ji_repeat (snd kv) = true /\
      every_check n = EveryReturns
  | None => exists t, ji_schedule_time (snd kv) = Some t /\ at_check t = None
  end.

Definition registry_ok (reg : registry) : Prop :=
  Forall job_ok reg /\ NoDup (dict_keys reg).

Definition sched_ok (s : state) : Prop := registry_ok (scheduled_jobs s).

(** The states a scheduler goes through: it starts with an empty registry
    and changes state by its operations only. *)
Inductive reachable : state -> Prop :=
| reach_init (s : state) :
    scheduled_jobs s = [] -> reachable s
| reach_schedule (s : state) wf t name rep :
    reachable s -> reachable (snd (schedule_workflow wf t name rep s))
| reach_interval (s : state) wf n name :
    reachable s -> reachable (snd (schedule_interval_workflow wf n name s))
| reach_dispatch (s : state) wf name :
    reachable s -> reachable (snd (_execute_scheduled_workflow wf name s))
| reach_execute (s : state) wf :
    reachable s -> reachable (snd (execute_workflow wf s))
| reach_remove (s : state) name :
    reachable s -> reachable (snd (remove_job name s))
| reach_save (s : state) filename :
    reachable s -> reachable (snd (save_schedule filename s))
| reach_load (s : state) path :
    reachable s -> reachable (snd (load_schedule path s)).

(** Two entries with the same trigger spec. *)
Definition same_trigger (j j' : job_info) : Prop :=
  ji_schedule_time j' = ji_schedule_time j /\
  ji_repeat j' = ji_repeat j /\
  ji_interval_minutes j' = ji_interval_minutes j.

(** *** Statements of the specification that the code does not satisfy *)

(** C1 as stated: when the session starts, the steps of [pre] succeed and
    the step after them raises, [execute_workflow] returns a result with
    [length pre] steps executed, [success = false] and one error. *)
Definition first_failure_returns_result (wf : workflow) (s : state) : Prop :=
  forall (pre : list step) (st : step) (post : list step)
         (s0 s1 sk sf : state) (r0 rk : run_result) (e : exn),
    sget "steps" wf = Some (WSteps (pre ++ st :: post)) ->
    initial_results wf s = (inr r0, s0) ->
    start_browser (new_engine (ex_browser_type s0) (ex_headless s0))
      (with_engine (Some (new_engine (ex_browser_type s0) (ex_headless s0))) s0)
    = (inr tt, s1) ->
    run_steps 1 (map IStep pre) r0 s1 = (rk, sk) ->
    success rk = true ->
    _execute_step st rk sk = (inl e, sf) ->
    exists (R : run_result) (s' : state),
      execute_workflow wf s = (inr R, s') /\
      steps_executed R = List.length pre /\
      success R = false /\
      List.length (errors R) = 1%nat.

(** C2 as stated: when starting the browser raises [e], [execute_workflow]
    raises [e]. *)
Definition start_error_is_raised (wf : workflow) (s : state) : Prop :=
  forall (r0 : run_result) (s0 s1 : state) (e : exn),
    initial_results wf s = (inr r0, s0) ->
    start_browser (new_engine (ex_browser_type s0) (ex_headless s0))
      (with_engine (Some (new_engine (ex_browser_type s0) (ex_headless s0))) s0)
    = (inl e, s1) ->
    exists s', execute_workflow wf s = (inl e, s').

(** C4 as stated: after a dispatched run the job's entry has a last-run
    time stamp, a last result or a last error, and a next run computed anew,
    that is, from a clock reading [t] taken no earlier than the dispatch. *)
Definition dispatch_refreshes_entry (wf : workflow) (name : string)
    (s : state) : Prop :=
  forall j, sget name (scheduled_jobs s) = Some j ->
  exists (j' : job_info) (t : Z),
    sget name (scheduled_jobs (snd (_execute_scheduled_workflow wf name s))) = Some j' /\
    ji_last_run j' <> None /\
    (ji_last_result j' <> None \/ ji_last_error j' <> None) /\
    fst (clock (s_ext s)) <= t /\
    match ji_interval_minutes j with
    | Some m => ji_next_run j' = NextRunAt (t + m * 60 * MICRO)
    | None => exists nr, ji_next_run j' = NextRunAt nr /\ t < nr
    end.

(** C5 as stated: scheduling under a name that is already registered fails
    and leaves the state as it is. *)
Definition duplicate_name_is_rejected (wf : workflow) (t name : string)
    (rep : bool) (s : state) : Prop :=
  smem name (scheduled_jobs s) = true ->
  exists e, schedule_workflow wf t (Some name) rep s = (inl e, s).

(** *** Further vocabulary *)

(** The engine calls a step can make: all but the start and the close of
    the session. *)
Definition is_step_call (c : ecall) : Prop :=
  match c with
  | EStart | EClose => False
  | _ => True
  end.

(** The steps that the validator accepts: the action is one of the six
    known ones, given as a string; a navigate step has the key [url]; a
    click, type, wait or get_text step has the key [selector]. *)
Definition step_well_formed (st : step) : Prop :=
  exists a : string,
    sget "action" st = Some (SStr a) /\
    In a valid_actions /\
    (a = "navigate" -> smem "url" st = true) /\
    (In a ["click"; "type"; "wait"; "get_text"] -> smem "selector" st = true).

(** Every registered job has a job of the [schedule] library tagged with
    its name. *)
Definition has_trigger (s : state) : Prop :=
  forall name, smem name (scheduled_jobs s) = true ->
  exists lj, In lj (lib_jobs s) /\ lj_tag lj = name.

(** [makes_step_calls m]: what [m] adds to the record of engine calls are
    calls of steps only. *)
Definition makes_step_calls {A : Type} (m : M A) : Prop :=
  forall s, exists mid,
    s_calls (snd (m s)) = (s_calls s ++ mid)%list /\ Forall is_step_call mid.

(** The number of colons in a string. *)
Fixpoint colons (s : string) : nat :=
  match s with
  | EmptyString => 0
  | String c s' => if (c =? ":")%char then S (colons s') else colons s'
  end.

(** What the repeat flag does not reach: the names with the next run and
    the time string of each entry. *)
Definition schedule_view (jobs : registry) : list (string * next_run_value * option string) :=
  map (fun kv => (fst kv, ji_next_run (snd kv), ji_schedule_time (snd kv))) jobs.

End Program.

(** ** A scripted backend, for running the model on concrete inputs *)

(** The outside world of the examples: a clock that advances one hour per
    reading and the schedule files written so far. *)
Record script_ext : Type := {
  tick : nat;
  files : list (string * registry)
}.

Definition HOUR : Z := 3600 * MICRO.

Definition script_clock (e : script_ext) : Z * script_ext :=
  (Z.of_nat (tick e) * HOUR, {| tick := S (tick e); files := files e |}).

(** Library calls fail as [fails] says; text extraction yields a fixed text,
    every other call yields [None]. *)
Definition script_lib (fails : libcall -> option exn) (c : libcall)
    (e : script_ext) : (exn + scalar) * script_ext :=
  match fails c with
  | Some x => (inl x, e)
  | None =>
      match c with
      | page_text_content _ | element_text => (inr (SStr "Example Domain"), e)
      | fs_write_schedule path doc =>
          (inr SNone, {| tick := tick e; files := sset path doc (files e) |})
      | _ => (inr SNone, e)
      end
  end.

Definition script_read (path : string) (e : script_ext) : (exn + registry) * script_ext :=
  match sget path (files e) with
  | Some doc => (inr doc, e)
  | None => (inl (Raise "FileNotFoundError" ("No such file or directory: " ++ path)), e)
  end.

(** The time strings the scripted [schedule] library accepts: two numbers in
    range, separated by a colon. *)
Definition script_at_check (t : string) : option exn :=
  match parse_hour_minute t with
  | Some (h, m) =>
      if hm_in_range h m then None
      else Some (Raise "ScheduleValueError" "Invalid time format for a daily job")
  | None => Some (Raise "ScheduleValueError" "Invalid time format for a daily job")
  end.

(** The scripted [schedule] library registers a positive interval and does
    not return for any other. *)
Definition script_every_check (n : Z) : every_outcome :=
  if 0 <? n then EveryReturns else EveryHangs.

Definition script_backend (fails : libcall -> option exn) : Backend :=
  {| Ext := script_ext;
     clock := script_clock;
     lib := script_lib fails;
     fs_read_schedule := script_read;
     at_check := script_at_check;
     every_check := script_every_check;
     isoformat := Z_to_string;
     strftime := Z_to_string |}.

Definition no_failure (c : libcall) : option exn := None.

Definition click_times_out (c : libcall) : option exn :=
  match c with
  | page_click _ => Some (Raise "TimeoutError" "Timeout 30000ms exceeded.")
  | _ => None
  end.

Definition chrome_missing (c : libcall) : option exn :=
  match c with
  | webdriver_chrome _ => Some (Raise "WebDriverException" "unknown error: cannot find Chrome binary")
  | _ => None
  end.

(** A fresh process: nothing scheduled, no engine yet, the clock at [n]
    hours. *)
Definition fresh_state (fails : libcall -> option exn) (bt : string) (n : nat)
    : @state (script_backend fails) :=
  @Build_state (script_backend fails)
    {| tick := n; files := [] |} [] bt true None [] [].

Definition wf_example : workflow :=
  [("name", WScalar (SStr "T1"));
   ("description", WScalar (SStr "open a page and click"));
   ("steps", WSteps
      [[("action", SStr "navigate"); ("url", SStr "https://example.com")];
       [("action", SStr "click"); ("selector", SStr "button.login")];
       [("action", SStr "screenshot"); ("path", SStr "s.png")]])].

(** A [type] step with a selector and no text. *)
Definition wf_type_without_text : workflow :=
  [("name", WScalar (SStr "B"));
   ("description", WScalar (SStr "type without text"));
   ("steps", WSteps [[("action", SStr "type"); ("selector", SStr "input#q")]])].

(** ** Inputs of the examples *)

Definition quiet : Backend := script_backend no_failure.

(** A scheduler with the daily job ["daily"] at 09:00 and the interval job
    ["poll"] every 30 minutes, registered at 0:00 and 2:00 of day 0. *)
Definition two_jobs : @state quiet :=
  snd (@schedule_interval_workflow quiet wf_example 30 (Some "poll")
         (snd (@schedule_workflow quiet wf_example "09:00" (Some "daily") true
                 (fresh_state no_failure "playwright" 0)))).

(** An executor that holds a started Playwright engine. *)
Definition started : @state quiet :=
  @Build_state quiet {| tick := 8; files := [] |} [EStart] "playwright" true
    (Some {| browser_type := "playwright"; headless := true; playwright := true;
             playwright_browser := true; playwright_page := true;
             selenium_driver := false |})
    [] [].

Definition click_step : step :=
  [("action", SStr "click"); ("selector", SStr "button.login")].

Definition empty_text_step : step :=
  [("action", SStr "type"); ("selector", SStr "input#q"); ("text", SStr "")].

Definition blank_results : run_result :=
  {| workflow_name := WScalar (SStr "T1"); start_time := "0"; steps_executed := 0;
     total_steps := 1; success := true; errors := []; screenshots := [];
     extracted_data := []; end_time := None |}.

Definition result_of {A : Type} (d : A) (r : exn + A) : A :=
  match r with inr a => a | inl _ => d end.

Definition error_of {A : Type} (r : exn + A) : exn :=
  match r with inl e => e | inr _ => Raise "" "" end.

Definition poll_entry : job_info :=
  Eval vm_compute in
    match sget "poll" (scheduled_jobs two_jobs) with
    | Some j => j
    | None =>
        {| ji_workflow := []; ji_schedule_time := None; ji_interval_minutes := None;
           ji_repeat := false; ji_created_at := ""; ji_last_run := None;
           ji_next_run := NextRunText ""; ji_last_result := None;
           ji_last_error := None |}
    end.

(** *** A run whose second step fails *)

Definition flaky : Backend := script_backend click_times_out.

Definition flaky_start : @state flaky := fresh_state click_times_out "playwright" 8.

Definition flaky_engine : engine := new_engine "playwright" true.

Definition navigate_step : step :=
  [("action", SStr "navigate"); ("url", SStr "https://example.com")].

Definition screenshot_step : step :=
  [("action", SStr "screenshot"); ("path", SStr "s.png")].

Definition flaky_r0 : run_result :=
  Eval vm_compute in
    result_of blank_results (fst (@initial_results flaky wf_example flaky_start)).

Definition flaky_s0 : @state flaky :=
  Eval vm_compute in snd (@initial_results flaky wf_example flaky_start).

Definition flaky_s1 : @state flaky :=
  Eval vm_compute in
    snd (@start_browser flaky flaky_engine (with_engine (Some flaky_engine) flaky_s0)).

Definition flaky_before : run_result * @state flaky :=
  Eval vm_compute in @run_steps flaky 1 [IStep navigate_step] flaky_r0 flaky_s1.

Definition flaky_failed : (exn + run_result) * @state flaky :=
  Eval vm_compute in
    @_execute_step flaky click_step (fst flaky_before) (snd flaky_before).

Definition flaky_closed : @state flaky :=
  Eval vm_compute in snd (@release flaky (snd flaky_failed)).

(** *** A run whose second step fails and whose page cannot be closed *)

Definition click_and_close_fail (c : libcall) : option exn :=
  match c with
  | page_click _ => Some (Raise "TimeoutError" "Timeout 30000ms exceeded.")
  | page_close => Some (Raise "Error" "Target page, context or browser has been closed")
  | _ => None
  end.

Definition crashed : Backend := script_backend click_and_close_fail.

Definition crashed_start : @state crashed :=
  fresh_state click_and_close_fail "playwright" 8.

Definition crashed_r0 : run_result :=
  Eval vm_compute in
    result_of blank_results (fst (@initial_results crashed wf_example crashed_start)).

Definition crashed_s0 : @state crashed :=
  Eval vm_compute in snd (@initial_results crashed wf_example crashed_start).

Definition crashed_s1 : @state crashed :=
  Eval vm_compute in
    snd (@start_browser crashed flaky_engine (with_engine (Some flaky_engine) crashed_s0)).

Definition crashed_before : run_result * @state crashed :=
  Eval vm_compute in @run_steps crashed 1 [IStep navigate_step] crashed_r0 crashed_s1.

Definition crashed_failed : (exn + run_result) * @state crashed :=
  Eval vm_compute in
    @_execute_step crashed click_step (fst crashed_before) (snd crashed_before).

(** A registry that a loading scheduler may hold. *)
Definition stale_registry : registry := [("stale", poll_entry)].

(** *** A run whose browser does not start *)

Definition no_chrome : Backend := script_backend chrome_missing.

Definition no_chrome_start : @state no_chrome := fresh_state chrome_missing "selenium" 8.

Definition selenium_engine : engine := new_engine "selenium" true.

Definition no_chrome_r0 : run_result :=
  Eval vm_compute in
    result_of blank_results (fst (@initial_results no_chrome wf_example no_chrome_start)).

Definition no_chrome_s0 : @state no_chrome :=
  Eval vm_compute in snd (@initial_results no_chrome wf_example no_chrome_start).

Definition no_chrome_failed : (exn + unit) * @state no_chrome :=
  Eval vm_compute in
    @start_browser no_chrome selenium_engine
      (with_engine (Some selenium_engine) no_chrome_s0).

Definition no_chrome_closed : @state no_chrome :=
  Eval vm_compute in snd (@release no_chrome (snd no_chrome_failed)).

(** *** A run in which every step succeeds *)

Definition quiet_start : @state quiet := fresh_state no_failure "playwright" 8.

Definition quiet_r0 : run_result :=
  Eval vm_compute in
    result_of blank_results (fst (@initial_results quiet wf_example quiet_start)).

Definition quiet_s0 : @state quiet :=
  Eval vm_compute in snd (@initial_results quiet wf_example quiet_start).

Definition quiet_s1 : @state quiet :=
  Eval vm_compute in
    snd (@start_browser quiet flaky_engine (with_engine (Some flaky_engine) quiet_s0)).

Definition quiet_done : run_result * @state quiet :=
  Eval vm_compute in
    @run_steps quiet 1 (map IStep [navigate_step; click_step; screenshot_step])
      quiet_r0 quiet_s1.

Definition quiet_closed : @state quiet :=
  Eval vm_compute in snd (@release quiet (snd quiet_done)).


(** *** A run without Playwright *)

Definition playwright_missing (c : libcall) : option exn :=
  match c with
  | async_playwright_start =>
      Some (Raise "Error" "Executable doesn't exist; run playwright install")
  | _ => None
  end.

Definition no_playwright : Backend := script_backend playwright_missing.

Definition no_playwright_start : @state no_playwright :=
  fresh_state playwright_missing "playwright" 8.

Definition no_playwright_r0 : run_result :=
  Eval vm_compute in
    result_of blank_results
      (fst (@initial_results no_playwright wf_example no_playwright_start)).

Definition no_playwright_s0 : @state no_playwright :=
  Eval vm_compute in snd (@initial_results no_playwright wf_example no_playwright_start).

(** *** Steps *)

Definition hover_step : step := [("action", SStr "hover"); ("selector", SStr "a")].

Definition get_text_step : step := [("action", SStr "get_text"); ("selector", SStr "h1")].

Definition empty_url_step : step := [("action", SStr "navigate"); ("url", SStr "")].

Definition extracted : (exn + run_result) * @state quiet :=
  Eval vm_compute in @_execute_step quiet get_text_step blank_results started.

(** *** Validation *)

(** A workflow whose second step lacks its selector. *)
Definition wf_click_without_selector : workflow :=
  [("name", WScalar (SStr "V"));
   ("description", WScalar (SStr "click without selector"));
   ("steps", WSteps [navigate_step; [("action", SStr "click")]; screenshot_step])].

(** *** Schedules *)

(** Two unnamed jobs, then the first one removed: the only job left is
    ["workflow_2"], and the next unnamed job gets that name as well. *)
Definition one_unnamed_left : @state quiet :=
  Eval vm_compute in
    snd (@remove_job quiet "workflow_1"
           (snd (@schedule_workflow quiet wf_example "10:30" None false
                   (snd (@schedule_workflow quiet wf_example "09:00" None false
                           (fresh_state no_failure "playwright" 0)))))).

Definition nightly_entry : job_info :=
  {| ji_workflow := wf_example; ji_schedule_time := Some "23:15";
     ji_interval_minutes := None; ji_repeat := false; ji_created_at := "0";
     ji_last_run := None; ji_next_run := NextRunText "0";
     ji_last_result := None; ji_last_error := None |}.

(** An entry with a time string that the scripted [schedule] library
    rejects. *)
Definition rejected_entry : job_info :=
  {| ji_workflow := wf_example; ji_schedule_time := Some "25:00";
     ji_interval_minutes := None; ji_repeat := false; ji_created_at := "0";
     ji_last_run := None; ji_next_run := NextRunText "0";
     ji_last_result := None; ji_last_error := None |}.

(** An interval entry that the scripted [schedule] library registers. *)
Definition hourly_entry : job_info :=
  {| ji_workflow := wf_example; ji_schedule_time := None;
     ji_interval_minutes := Some 60; ji_repeat := true; ji_created_at := "0";
     ji_last_run := None; ji_next_run := NextRunText "0";
     ji_last_result := None; ji_last_error := None |}.

(** An interval entry for which the scripted [schedule] library does not
    return. *)
Definition zero_interval_entry : job_info :=
  {| ji_workflow := wf_example; ji_schedule_time := None;
     ji_interval_minutes := Some 0; ji_repeat := true; ji_created_at := "0";
     ji_last_run := None; ji_next_run := NextRunText "0";
     ji_last_result := None; ji_last_error := None |}.

(** The scheduler of [two_jobs] next to three schedule files; the third
    entry of ["broken.json"] is rejected, the second entry of ["stuck.json"]
    has the interval 0. *)
Definition with_files : @state quiet :=
  @Build_state quiet
    {| tick := 5;
       files := [("nightly.json",
                  [("nightly", nightly_entry); ("hourly", hourly_entry)]);
                 ("broken.json",
                  [("nightly", nightly_entry); ("hourly", hourly_entry);
                   ("broken", rejected_entry); ("poll", poll_entry)]);
                 ("stuck.json",
                  [("nightly", nightly_entry); ("stuck", zero_interval_entry);
                   ("hourly", hourly_entry)])] |}
    [] "playwright" true None (scheduled_jobs two_jobs) (lib_jobs two_jobs).

(** *** Engines *)

Definition started_engine : engine :=
  {| browser_type := "playwright"; headless := true; playwright := true;
     playwright_browser := true; playwright_page := true; selenium_driver := false |}.

Definition selenium_started : engine :=
  {| browser_type := "selenium"; headless := true; playwright := false;
     playwright_browser := false; playwright_page := false; selenium_driver := true |}.

(** *** Endpoints and files *)

(** A file system in which every workflow file holds [wf_example]. *)
Definition read_example (path : string) (e : script_ext) : (exn + workflow) * script_ext :=
  (inr wf_example, e).

(** * Properties *)

(** ** Dictionaries *)

Lemma sget_sset_same (V : Type) (k : string) (v : V) (d : list (string * V)) :
  sget k (sset k v d) = Some v.
Proof.
  induction d as [|[k' v'] d IH]; simpl.
  - now rewrite String.eqb_refl.
  - destruct (String.eqb k k') eqn:E; simpl; rewrite E; auto.
Qed.

Lemma sget_sset_other (V : Type) (k k' : string) (v : V) (d : list (string * V)) :
  k <> k' -> sget k' (sset k v d) = sget k' d.
Proof.
  intros Hne. induction d as [|[k0 v0] d IH]; simpl.
  - destruct (String.eqb k' k) eqn:E; auto.
    apply String.eqb_eq in E. congruence.
  - destruct (String.eqb k k0) eqn:E; simpl.
    + apply String.eqb_eq in E. subst k0.
      destruct (String.eqb k' k) eqn:E'; auto.
      apply String.eqb_eq in E'. congruence.
    + now rewrite IH.
Qed.

Lemma smem_sset_other (V : Type) (k k' : string) (v : V) (d : list (string * V)) :
  k <> k' -> smem k' (sset k v d) = smem k' d.
Proof. intros. unfold dict_mem. now rewrite sget_sset_other. Qed.

Lemma dict_keys_sset_present (V : Type) (k : string) (v : V) (d : list (string * V)) :
  smem k d = true -> dict_keys (sset k v d) = dict_keys d.
Proof.
  unfold dict_mem, dict_keys. induction d as [|[k' v'] d IH]; simpl.
  - discriminate.
  - destruct (String.eqb k k') eqn:E; simpl; auto.
    intros H. now rewrite IH.
Qed.

Lemma dict_keys_sset_absent (V : Type) (k : string) (v : V) (d : list (string * V)) :
  smem k d = false -> dict_keys (sset k v d) = (dict_keys d ++ [k])%list.
Proof.
  unfold dict_mem, dict_keys. induction d as [|[k' v'] d IH]; simpl; auto.
  destruct (String.eqb k k') eqn:E; simpl.
  - discriminate.
  - intros H. now rewrite IH.
Qed.

Lemma smem_false_not_in (V : Type) (k : string) (d : list (string * V)) :
  smem k d = false <-> ~ In k (dict_keys d).
Proof.
  unfold dict_mem, dict_keys. induction d as [|[k' v'] d IH]; simpl.
  - tauto.
  - destruct (String.eqb k k') eqn:E.
    + apply String.eqb_eq in E. subst. split; [discriminate | tauto].
    + apply String.eqb_neq in E. rewrite IH. split.
      * intros H [H1 | H1]; [congruence | tauto].
      * tauto.
Qed.

Section Properties.
Context {B : Backend}.

(** ** Effects that leave a part of the state alone *)

Lemma stable_ret {X A} (f : state -> X) (a : A) : stable f (ret a).
Proof. intros s. reflexivity. Qed.

Lemma stable_raise {X A} (f : state -> X) (e : exn) : stable f (@raise _ A e).
Proof. intros s. reflexivity. Qed.

Lemma stable_bind {X A C} (f : state -> X) (m : M A) (k : A -> M C) :
  stable f m -> (forall a, stable f (k a)) -> stable f (bind m k).
Proof.
  intros Hm Hk s. unfold bind. specialize (Hm s).
  destruct (m s) as [[e | a] s']; simpl in *; auto.
  now rewrite Hk.
Qed.

Lemma stable_now {X} (f : state -> X) : ext_free f -> stable f now.
Proof.
  intros Hf s. unfold now. destruct (clock (s_ext s)). simpl. apply Hf.
Qed.

Lemma stable_call {X} (f : state -> X) (c : libcall) : ext_free f -> stable f (call c).
Proof.
  intros Hf s. unfold call. destruct (lib c (s_ext s)). simpl. apply Hf.
Qed.

Lemma stable_lift {X A} (f : state -> X) (r : exn + A) : stable f (lift r).
Proof. destruct r; intros s; reflexivity. Qed.

Lemma stable_on_handle {X} (f : state -> X) (b : bool) (a : string) :
  stable f (on_handle b a).
Proof. destruct b; intros s; reflexivity. Qed.

Lemma stable_when {X} (f : state -> X) (b : bool) (m : M unit) :
  stable f m -> stable f (when b m).
Proof. destruct b; simpl; auto. intros _ s. reflexivity. Qed.

Lemma stable_get_state {X} (f : state -> X) : stable f get_state.
Proof. intros s. reflexivity. Qed.

Lemma stable_the_engine {X} (f : state -> X) (m : string) : stable f (the_engine m).
Proof. intros s. unfold the_engine. destruct (ex_engine s); reflexivity. Qed.

Lemma stable_if {X A} (f : state -> X) (b : bool) (m1 m2 : M A) :
  stable f m1 -> stable f m2 -> stable f (if b then m1 else m2).
Proof. destruct b; auto. Qed.

Lemma stable_try_catch {X A} (f : state -> X) (m : M A) (h : exn -> M A) :
  stable f m -> (forall e, stable f (h e)) -> stable f (try_catch m h).
Proof.
  intros Hm Hh s. unfold try_catch. specialize (Hm s).
  destruct (m s) as [[e | a] s']; simpl in *; auto.
  now rewrite Hh.
Qed.

Lemma ext_free_calls : ext_free s_calls.
Proof. intros e s. reflexivity. Qed.

Lemma ext_free_jobs : ext_free scheduled_jobs.
Proof. intros e s. reflexivity. Qed.

Lemma ext_free_lib_jobs : ext_free lib_jobs.
Proof. intros e s. reflexivity. Qed.

Lemma ext_free_engine : ext_free ex_engine.
Proof. intros e s. reflexivity. Qed.

Create HintDb stable discriminated.

#[local] Hint Resolve stable_ret stable_raise stable_now stable_call stable_lift
  stable_on_handle stable_when stable_get_state stable_the_engine
  ext_free_calls ext_free_jobs ext_free_lib_jobs ext_free_engine : stable.

(** Breaks a monadic program into its primitive effects. *)
Ltac stable_steps :=
  repeat first
    [ apply stable_bind; [ | intros ? ]
    | apply stable_if
    | apply stable_try_catch; [ | intros ? ]
    | solve [ auto with stable ]
    | match goal with
      | |- stable _ (match ?x with _ => _ end) => destruct x
      end ].

Lemma calls_free_engine : calls_free ex_engine.
Proof. intros c s. reflexivity. Qed.

Lemma calls_free_jobs : calls_free scheduled_jobs.
Proof. intros c s. reflexivity. Qed.

Lemma calls_free_lib_jobs : calls_free lib_jobs.
Proof. intros c s. reflexivity. Qed.

Lemma engine_free_calls : engine_free s_calls.
Proof. intros c s. reflexivity. Qed.

Lemma engine_free_jobs : engine_free scheduled_jobs.
Proof. intros c s. reflexivity. Qed.

Lemma engine_free_lib_jobs : engine_free lib_jobs.
Proof. intros c s. reflexivity. Qed.

Lemma stable_set_engine {X} (f : state -> X) (u : engine -> engine) :
  engine_free f -> stable f (set_engine u).
Proof. intros H s. apply H. Qed.

Lemma stable_record_call {X} (f : state -> X) (c : ecall) :
  calls_free f -> stable f (record_call c).
Proof. intros H s. apply H. Qed.

#[local] Hint Resolve calls_free_engine calls_free_jobs calls_free_lib_jobs
  engine_free_calls engine_free_jobs engine_free_lib_jobs
  stable_set_engine stable_record_call : stable.

(** ** The engine: which call a method records *)

Lemma snd_bind_ret {A C} (m : M A) (c : C) (s : state) :
  snd (bind m (fun _ => ret c) s) = snd (m s).
Proof. unfold bind. destruct (m s) as [[e | a] s']; reflexivity. Qed.

Lemma record_then_stable {A} (c : ecall) (m : M A) :
  stable s_calls m ->
  forall s, s_calls (snd (bind (record_call c) (fun _ => m) s)) = (s_calls s ++ [c])%list.
Proof.
  intros Hm s. unfold bind, record_call, modify. rewrite Hm. reflexivity.
Qed.

Lemma calls_click_element (sel ty : scalar) (g : engine) (s : state) :
  s_calls (snd (click_element sel ty g s)) = (s_calls s ++ [EClick sel ty])%list.
Proof. apply record_then_stable. stable_steps. Qed.

Lemma calls_type_text (sel text ty : scalar) (g : engine) (s : state) :
  s_calls (snd (type_text sel text ty g s)) = (s_calls s ++ [EType sel text ty])%list.
Proof. apply record_then_stable. stable_steps. Qed.

Lemma calls_wait_for_element (sel timeout ty : scalar) (g : engine) (s : state) :
  s_calls (snd (wait_for_element sel timeout ty g s))
  = (s_calls s ++ [EWait sel timeout ty])%list.
Proof. apply record_then_stable. stable_steps. Qed.

Lemma calls_get_text (sel ty : scalar) (g : engine) (s : state) :
  s_calls (snd (get_text sel ty g s)) = (s_calls s ++ [EGetText sel ty])%list.
Proof. apply record_then_stable. stable_steps. Qed.

Lemma calls_close_browser (g : engine) (s : state) :
  s_calls (snd (close_browser g s)) = (s_calls s ++ [EClose])%list.
Proof. apply record_then_stable. stable_steps. Qed.

Lemma calls_start_browser (g : engine) (s : state) :
  s_calls (snd (start_browser g s)) = (s_calls s ++ [EStart])%list.
Proof.
  apply record_then_stable. unfold _start_playwright, _start_selenium. stable_steps.
Qed.

(** ** Step parameters *)

Lemma smem_false_sget (V : Type) (k : string) (d : list (string * V)) :
  smem k d = false -> sget k d = None.
Proof. unfold dict_mem. destruct (sget k d); congruence. Qed.

Lemma step_get_default_absent (k : string) (d : scalar) (st : step) :
  smem k st = false -> step_get_default k d st = d.
Proof. intros H. unfold step_get_default. now rewrite (smem_false_sget _ _ _ H). Qed.

Lemma step_action (st : step) (a : string) :
  sget "action" st = Some (SStr a) -> step_get "action" st = SStr a.
Proof. intros H. unfold step_get. now rewrite H. Qed.

Lemma the_engine_some (m : string) (g : engine) (s : state) :
  ex_engine s = Some g -> the_engine m s = (inr g, s).
Proof. intros H. unfold the_engine. now rewrite H. Qed.

(** ** Defaults of the step executor *)

Ltac step_branch Hact :=
  unfold _execute_step; rewrite (step_action _ _ Hact); cbn [is_str py_eqb String.eqb Ascii.eqb Bool.eqb as_int].

(** C9. A click, type, wait or get_text step without [selector_type] is
    dispatched to the engine with selector type ["css"], and a wait step
    without [timeout] is dispatched with timeout [10]: the engine call that
    the step makes is the one with these values.  (The step has the
    parameters its action requires and the executor holds an engine, so that
    the step reaches the engine.) *)
Theorem defaults_of_dispatched_steps
    (st : step) (results : run_result) (s : state) (g : engine) :
  ex_engine s = Some g ->
  truthy (step_get "selector" st) = true ->
  let sel := step_get "selector" st in
  let calls := s_calls (snd (_execute_step st results s)) in
  (smem "selector_type" st = false ->
     (sget "action" st = Some (SStr "click") ->
        calls = (s_calls s ++ [EClick sel (SStr "css")])%list) /\
     (sget "action" st = Some (SStr "type") ->
        truthy (step_get "text" st) = true ->
        calls = (s_calls s ++ [EType sel (step_get "text" st) (SStr "css")])%list) /\
     (sget "action" st = Some (SStr "wait") ->
        calls = (s_calls s ++
                   [EWait sel (step_get_default "timeout" (SInt 10) st) (SStr "css")])%list) /\
     (sget "action" st = Some (SStr "get_text") ->
        calls = (s_calls s ++ [EGetText sel (SStr "css")])%list)) /\
  (smem "timeout" st = false ->
     sget "action" st = Some (SStr "wait") ->
     calls = (s_calls s ++
                [EWait sel (SInt 10)
                   (step_get_default "selector_type" (SStr "css") st)])%list).
Proof.
  intros Hg Hsel sel calls. subst sel calls.
  split; [intros Hty; repeat split | intros Hto]; intros Hact.
  - step_branch Hact. rewrite Hsel; rewrite (step_get_default_absent "selector_type" (SStr "css") st Hty). cbn [negb orb].
    unfold bind at 1. rewrite (the_engine_some _ _ _ Hg).
    rewrite snd_bind_ret. apply calls_click_element.
  - intros Htext. step_branch Hact.
    rewrite Hsel, Htext; rewrite (step_get_default_absent "selector_type" (SStr "css") st Hty). cbn [negb orb].
    unfold bind at 1. rewrite (the_engine_some _ _ _ Hg).
    rewrite snd_bind_ret. apply calls_type_text.
  - step_branch Hact. rewrite Hsel; rewrite (step_get_default_absent "selector_type" (SStr "css") st Hty). cbn [negb orb].
    unfold bind at 1. rewrite (the_engine_some _ _ _ Hg).
    rewrite snd_bind_ret. apply calls_wait_for_element.
  - step_branch Hact. rewrite Hsel; rewrite (step_get_default_absent "selector_type" (SStr "css") st Hty). cbn [negb orb].
    unfold bind at 1. rewrite (the_engine_some _ _ _ Hg).
    unfold bind.
    pose proof (calls_get_text (step_get "selector" st) (SStr "css") g s) as Hc.
    destruct (get_text (step_get "selector" st) (SStr "css") g s) as [[e | t] s'];
      simpl in *; exact Hc.
  - step_branch Hact. rewrite Hsel; rewrite (step_get_default_absent "timeout" (SInt 10) st Hto). cbn [negb orb].
    unfold bind at 1. rewrite (the_engine_some _ _ _ Hg).
    rewrite snd_bind_ret. apply calls_wait_for_element.
Qed.

(** Equivalently, such a step behaves as the step with the default written
    out. *)
Lemma neq_by_eqb (a b : string) : String.eqb a b = false -> a <> b.
Proof. intros H. now apply String.eqb_neq. Qed.

(** Rewrites the reads of the other step fields after [sset k]. *)
Ltac other_fields k :=
  unfold step_get, step_get_default;
  repeat match goal with
    | |- context [sget ?k' (sset k ?v ?st)] =>
        rewrite (sget_sset_other scalar k k' v st (neq_by_eqb k k' eq_refl))
    end.

Lemma selector_type_css_explicit (st : step) (results : run_result) (s : state) :
  smem "selector_type" st = false ->
  _execute_step (sset "selector_type" (SStr "css") st) results s
  = _execute_step st results s.
Proof.
  intros H. unfold _execute_step. other_fields "selector_type".
  rewrite sget_sset_same, (smem_false_sget _ _ _ H).
  reflexivity.
Qed.

Lemma timeout_10_explicit (st : step) (results : run_result) (s : state) :
  smem "timeout" st = false ->
  _execute_step (sset "timeout" (SInt 10) st) results s = _execute_step st results s.
Proof.
  intros H. unfold _execute_step. other_fields "timeout".
  rewrite sget_sset_same, (smem_false_sget _ _ _ H).
  reflexivity.
Qed.

(** ** A present but empty [text] *)

(** C10. A type step whose [text] is the empty string, with a non-empty
    selector, raises the missing-parameter error without touching the state:
    no engine call is made.  In a run, the loop stops at this step, whatever
    follows it: the state is still untouched, the message of the step with
    its index is appended to [errors], [success] is [False], and the step is
    not counted as executed. *)
Theorem empty_text_is_reported_missing
    (st : step) (results : run_result) (s : state) :
  sget "action" st = Some (SStr "type") ->
  sget "text" st = Some (SStr "") ->
  truthy (step_get "selector" st) = true ->
  _execute_step st results s
  = (inl (ValueError "Type action requires 'selector' and 'text' parameters"), s)
  /\ forall (i : nat) (rest : list item),
       snd (run_steps i (IStep st :: rest) results s) = s /\
       errors (fst (run_steps i (IStep st :: rest) results s))
       = (errors results ++
            [("Step " ++ nat_to_string i
                ++ " failed: Type action requires 'selector' and 'text' parameters")%string])%list /\
       success (fst (run_steps i (IStep st :: rest) results s)) = false /\
       steps_executed (fst (run_steps i (IStep st :: rest) results s))
       = steps_executed results.
Proof.
  intros Hact Htext Hsel.
  assert (Hstep : _execute_step st results s
    = (inl (ValueError "Type action requires 'selector' and 'text' parameters"), s)).
  { step_branch Hact. unfold step_get at 2. rewrite Htext, Hsel. reflexivity. }
  split; [exact Hstep |].
  intros i rest. cbn [run_steps execute_item]. rewrite Hstep.
  repeat split.
Qed.

(** ** What a run leaves alone *)

Section Frames.
Context {X : Type} (f : state -> X).
Hypothesis f_ext : ext_free f.
Hypothesis f_calls : calls_free f.

Lemma stable_navigate_to url g : stable f (navigate_to url g).
Proof. unfold navigate_to. stable_steps. Qed.

Lemma stable_click_element a b g : stable f (click_element a b g).
Proof. unfold click_element. stable_steps. Qed.

Lemma stable_type_text a b c g : stable f (type_text a b c g).
Proof. unfold type_text. stable_steps. Qed.

Lemma stable_wait_for_element a b c g : stable f (wait_for_element a b c g).
Proof. unfold wait_for_element. stable_steps. Qed.

Lemma stable_get_text a b g : stable f (get_text a b g).
Proof. unfold get_text. stable_steps. Qed.

Lemma stable_take_screenshot a g : stable f (take_screenshot a g).
Proof. unfold take_screenshot. stable_steps. Qed.

Lemma stable_close_browser g : stable f (close_browser g).
Proof. unfold close_browser. stable_steps. Qed.

Lemma stable_release : stable f release.
Proof.
  unfold release. apply stable_bind; [auto with stable |].
  intros s. destruct (ex_engine s); [apply stable_close_browser | auto with stable].
Qed.

Hint Resolve stable_navigate_to stable_click_element stable_type_text
  stable_wait_for_element stable_get_text stable_take_screenshot : stable.

(** A step writes neither the engine handle nor the scheduler's tables. *)
Lemma stable_execute_step st r : stable f (_execute_step st r).
Proof. unfold _execute_step. stable_steps. Qed.

Lemma stable_execute_item it r : stable f (execute_item it r).
Proof. destruct it; simpl; [apply stable_execute_step | auto with stable]. Qed.

Lemma run_steps_frame items : forall i r s, f (snd (run_steps i items r s)) = f s.
Proof.
  induction items as [|it items IH]; intros i r s; simpl; auto.
  pose proof (stable_execute_item it r s) as H.
  destruct (execute_item it r s) as [[e | r'] s']; simpl in *; auto.
  now rewrite IH.
Qed.

Lemma stable_save_results r n : stable f (save_results r n).
Proof. unfold save_results. stable_steps. Qed.

Hypothesis f_engine : engine_free f.

Lemma stable_start_browser g : stable f (start_browser g).
Proof. unfold start_browser, _start_playwright, _start_selenium. stable_steps. Qed.

Lemma run_body_frame wf r s : f (snd (run_body wf r s)) = f s.
Proof.
  unfold run_body.
  pose proof (stable_start_browser (new_engine (ex_browser_type s) (ex_headless s))
                (with_engine (Some (new_engine (ex_browser_type s) (ex_headless s))) s)) as H.
  rewrite f_engine in H.
  destruct (start_browser _ _) as [[e | u] s']; simpl in *; auto.
  now rewrite run_steps_frame.
Qed.

Lemma stable_initial_results wf : stable f (initial_results wf).
Proof. unfold initial_results. stable_steps. Qed.

Lemma stable_run_finally r : stable f (run_finally r).
Proof.
  unfold run_finally. apply stable_bind; [apply stable_release |].
  intros _. stable_steps.
Qed.

(** [execute_workflow] leaves the scheduler's tables as they are. *)
Lemma stable_execute_workflow wf : stable f (execute_workflow wf).
Proof.
  unfold execute_workflow. apply stable_bind; [apply stable_initial_results |].
  intros r s.
  pose proof (run_body_frame wf r s) as H.
  destruct (run_body wf r s) as [r' s']. simpl in H.
  now rewrite stable_run_finally.
Qed.
End Frames.

(** ** Results of a step *)

Lemma returns_ret {A} (P : A -> Prop) (a : A) : P a -> returns P (ret a).
Proof. intros H s a' s' E. inversion E. now subst. Qed.

Lemma returns_raise {A} (P : A -> Prop) (e : exn) : returns P (raise e).
Proof. intros s a s' E. discriminate. Qed.

Lemma returns_bind {A C} (P : C -> Prop) (m : M A) (k : A -> M C) :
  (forall a, returns P (k a)) -> returns P (bind m k).
Proof.
  intros H s c s' E. unfold bind in E.
  destruct (m s) as [[e | a] s1]; [discriminate | eapply H; eauto].
Qed.

Lemma returns_if {A} (P : A -> Prop) (b : bool) (m1 m2 : M A) :
  returns P m1 -> returns P m2 -> returns P (if b then m1 else m2).
Proof. destruct b; auto. Qed.

Lemma execute_step_progress (st : step) (r : run_result) :
  returns (same_progress r) (_execute_step st r).
Proof.
  unfold _execute_step.
  repeat first
    [ apply returns_if
    | apply returns_raise
    | apply returns_ret; repeat split
    | apply returns_bind; intros ? ].
Qed.

Lemma execute_item_progress (it : item) (r : run_result) :
  returns (same_progress r) (execute_item it r).
Proof. destruct it; [apply execute_step_progress | apply returns_raise]. Qed.

(** ** The loop over the steps *)

(** If the loop over [pre] ends with [success] still set, every step of
    [pre] was counted, no error was recorded, and the loop over a longer
    list goes on from there. *)
Lemma run_steps_prefix (pre : list item) :
  forall (i : nat) (r : run_result) (s : state) (rk : run_result) (sk : state),
    run_steps i pre r s = (rk, sk) ->
    success rk = true ->
    steps_executed rk = (steps_executed r + List.length pre)%nat /\
    errors rk = errors r /\
    total_steps rk = total_steps r /\
    forall rest,
      run_steps i (pre ++ rest) r s = run_steps (i + List.length pre) rest rk sk.
Proof.
  induction pre as [|it pre IH]; intros i r s rk sk Hrun Hok.
  - simpl in Hrun. inversion Hrun; subst. simpl.
    rewrite !Nat.add_0_r. auto.
  - simpl in Hrun.
    pose proof (execute_item_progress it r s) as Hp.
    destruct (execute_item it r s) as [[e | r'] s'] eqn:E.
    + inversion Hrun; subst. simpl in Hok. discriminate.
    + destruct (Hp r' s' eq_refl) as (Hs & Hn & He & Ht).
      destruct (IH _ _ _ _ _ Hrun Hok) as (Hn' & He' & Ht' & Hrest).
      simpl in Hn', He', Ht'.
      repeat split.
      * rewrite Hn', Hn. simpl. lia.
      * now rewrite He', He.
      * now rewrite Ht', Ht.
      * intros rest. simpl. rewrite E, Hrest. f_equal. lia.
Qed.

(** ** Invariants of effects *)

Section Keeps.
Variable P : state -> Prop.

Lemma keeps_ret {A} (a : A) : keeps P (ret a).
Proof. intros s H. exact H. Qed.

Lemma keeps_raise {A} (e : exn) : keeps P (@raise _ A e).
Proof. intros s H. exact H. Qed.

Lemma keeps_bind {A C} (m : M A) (k : A -> M C) :
  keeps P m -> (forall a, keeps P (k a)) -> keeps P (bind m k).
Proof.
  intros Hm Hk s H. unfold bind. specialize (Hm s H).
  destruct (m s) as [[e | a] s']; simpl in *; auto.
  now apply Hk.
Qed.

Lemma keeps_try_catch {A} (m : M A) (h : exn -> M A) :
  keeps P m -> (forall e, keeps P (h e)) -> keeps P (try_catch m h).
Proof.
  intros Hm Hh s H. unfold try_catch. specialize (Hm s H).
  destruct (m s) as [[e | a] s']; simpl in *; auto.
  now apply Hh.
Qed.

Lemma keeps_if {A} (b : bool) (m1 m2 : M A) :
  keeps P m1 -> keeps P m2 -> keeps P (if b then m1 else m2).
Proof. destruct b; auto. Qed.

Lemma keeps_modify (u : state -> state) :
  (forall s, P s -> P (u s)) -> keeps P (modify u).
Proof. intros H s Hs. now apply H. Qed.

Lemma keeps_get_state : keeps P get_state.
Proof. intros s H. exact H. Qed.

Lemma keeps_lift {A} (r : exn + A) : keeps P (lift r).
Proof. destruct r; intros s H; exact H. Qed.

Lemma keeps_on_handle b a : keeps P (on_handle b a).
Proof. destruct b; intros s H; exact H. Qed.

Lemma keeps_the_engine m : keeps P (the_engine m).
Proof. intros s H. unfold the_engine. destruct (ex_engine s); exact H. Qed.

Lemma keeps_when b (m : M unit) : keeps P m -> keeps P (when b m).
Proof. destruct b; simpl; auto. intros _ s H. exact H. Qed.

Hypothesis P_ext : forall e s, P s -> P (with_ext e s).

Lemma keeps_now : keeps P now.
Proof. intros s H. unfold now. destruct (clock (s_ext s)). simpl. now apply P_ext. Qed.

Lemma keeps_call c : keeps P (call c).
Proof. intros s H. unfold call. destruct (lib c (s_ext s)). simpl. now apply P_ext. Qed.

Lemma keeps_read_schedule path : keeps P (read_schedule path).
Proof.
  intros s H. unfold read_schedule. destruct (fs_read_schedule path (s_ext s)).
  simpl. now apply P_ext.
Qed.
End Keeps.

(** A property of one component is kept by what leaves the component
    alone. *)
Lemma stable_keeps {X A} (f : state -> X) (Q : X -> Prop) (m : M A) :
  stable f m -> keeps (fun s => Q (f s)) m.
Proof. intros H s Hs. now rewrite H. Qed.

Ltac keeps_steps :=
  repeat first
    [ apply keeps_bind; [ | intros ? ]
    | apply keeps_if
    | apply keeps_try_catch; [ | intros ? ]
    | apply keeps_ret | apply keeps_raise | apply keeps_get_state
    | apply keeps_lift | apply keeps_on_handle | apply keeps_the_engine
    | apply keeps_now; solve [ auto ]
    | apply keeps_call; solve [ auto ]
    | apply keeps_when
    | match goal with
      | |- keeps _ (match ?x with _ => _ end) => destruct x
      end ].

Lemma start_browser_engine_set (g : engine) : keeps engine_set (start_browser g).
Proof.
  assert (Hset : forall u, keeps engine_set (set_engine u)).
  { intros u. apply keeps_modify. unfold engine_set. intros s H. simpl.
    destruct (ex_engine s); [discriminate | congruence]. }
  assert (Hext : forall e s, engine_set s -> engine_set (with_ext e s)) by auto.
  unfold start_browser, _start_playwright, _start_selenium.
  apply keeps_bind; [apply keeps_modify; auto | intros _].
  keeps_steps; apply Hset.
Qed.

Lemma release_calls (s : state) :
  engine_set s -> s_calls (snd (release s)) = (s_calls s ++ [EClose])%list.
Proof.
  unfold engine_set, release, bind, get_state. intros H.
  destruct (ex_engine s) as [g |]; [apply calls_close_browser | congruence].
Qed.

(** ** The run controller *)

Lemma initial_results_fields (wf : workflow) (s : state) (r0 : run_result) (s0 : state) :
  initial_results wf s = (inr r0, s0) ->
  steps_executed r0 = 0%nat /\ success r0 = true /\ errors r0 = [] /\
  py_len (steps_of wf) = inr (total_steps r0) /\
  ex_browser_type s0 = ex_browser_type s /\ ex_headless s0 = ex_headless s /\
  s_calls s0 = s_calls s.
Proof.
  unfold initial_results, bind, now. destruct (clock (s_ext s)) as [t e].
  destruct (py_len (steps_of wf)) as [x | n]; simpl; intros H; inversion H; subst.
  simpl. auto 10.
Qed.

Lemma run_finally_returns (r : run_result) (s sc : state) :
  release s = (inr tt, sc) ->
  run_finally r s
  = (inr (set_end_time (isoformat (fst (clock (s_ext sc)))) r),
     with_ext (snd (clock (s_ext sc))) sc).
Proof.
  intros H. unfold run_finally, bind. rewrite H. unfold now.
  destruct (clock (s_ext sc)); reflexivity.
Qed.

(** C1, as the code has it.  In a workflow whose steps are
    [pre ++ st :: post], where the session starts, every step of [pre]
    succeeds and [st] raises, no step of [post] is attempted: the next
    engine call is the close of the session, and it is the last one.  When
    that close returns, [execute_workflow] returns a result with
    [steps_executed = length pre] (that is k-1 for the failing step k),
    [success = false] and exactly one error, the one of step k; the final
    state is the state after the close with the clock read once more.  When
    the close raises, [execute_workflow] raises the error of the close and
    returns no result. *)
Theorem first_failure_ends_run
    (wf : workflow) (pre : list step) (st : step) (post : list step)
    (s s0 s1 sk sf : state) (r0 rk : run_result) (e : exn) :
  sget "steps" wf = Some (WSteps (pre ++ st :: post)) ->
  initial_results wf s = (inr r0, s0) ->
  start_browser (new_engine (ex_browser_type s0) (ex_headless s0))
    (with_engine (Some (new_engine (ex_browser_type s0) (ex_headless s0))) s0)
  = (inr tt, s1) ->
  run_steps 1 (map IStep pre) r0 s1 = (rk, sk) ->
  success rk = true ->
  _execute_step st rk sk = (inl e, sf) ->
  (forall sc : state,
     release sf = (inr tt, sc) ->
     exists (R : run_result) (s' : state),
       execute_workflow wf s = (inr R, s') /\
       steps_executed R = List.length pre /\
       total_steps R = List.length (pre ++ st :: post) /\
       success R = false /\
       errors R
       = ["Step " ++ nat_to_string (S (List.length pre)) ++ " failed: " ++ exn_msg e] /\
       s_calls s' = (s_calls sf ++ [EClose])%list /\
       s' = with_ext (snd (clock (s_ext sc))) sc) /\
  (forall (e' : exn) (sc : state),
     release sf = (inl e', sc) ->
     execute_workflow wf s = (inl e', sc) /\
     s_calls sc = (s_calls sf ++ [EClose])%list).
Proof.
  intros Hsteps Hinit Hstart Hpre Hok Hfail.
  assert (Hset : engine_set sf).
  { pose proof (stable_execute_step ex_engine ext_free_engine calls_free_engine
                  st rk sk) as H1.
    pose proof (run_steps_frame ex_engine ext_free_engine calls_free_engine
                  (map IStep pre) 1%nat r0 s1) as H2.
    pose proof (start_browser_engine_set
                  (new_engine (ex_browser_type s0) (ex_headless s0))
                  (with_engine
                     (Some (new_engine (ex_browser_type s0) (ex_headless s0))) s0)) as H3.
    rewrite Hfail in H1. rewrite Hpre in H2. rewrite Hstart in H3. simpl in H1, H2, H3.
    unfold engine_set in *. rewrite H1, H2. apply H3. simpl. discriminate. }
  pose proof (release_calls sf Hset) as Hcalls.
  destruct (initial_results_fields _ _ _ _ Hinit) as (Hn0 & Hs0 & He0 & Hlen & _ & _ & _).
  destruct (run_steps_prefix _ _ _ _ _ _ Hpre Hok) as (Hn & He & Ht & Hrest).
  assert (Hitems : iter_items (steps_of wf)
                   = (map IStep pre ++ IStep st :: map IStep post)%list).
  { unfold steps_of. rewrite Hsteps. simpl. now rewrite map_app. }
  assert (Hbody : run_body wf r0 s0
    = (record_failure
         ("Step " ++ nat_to_string (S (List.length pre)) ++ " failed: " ++ exn_msg e) rk,
       sf)).
  { unfold run_body. rewrite Hstart, Hitems, Hrest. rewrite length_map.
    cbn [run_steps execute_item]. rewrite Hfail. reflexivity. }
  split.
  - intros sc Hrel.
    exists (set_end_time (isoformat (fst (clock (s_ext sc))))
              (record_failure
                 ("Step " ++ nat_to_string (S (List.length pre)) ++ " failed: "
                    ++ exn_msg e)
                 rk)),
           (with_ext (snd (clock (s_ext sc))) sc).
    split.
    { unfold execute_workflow, bind. rewrite Hinit, Hbody.
      now apply run_finally_returns. }
    simpl. rewrite Hn, Hn0, length_map, He, He0, Ht.
    repeat split; auto.
    + unfold steps_of in Hlen. rewrite Hsteps in Hlen. simpl in Hlen. congruence.
    + rewrite Hrel in Hcalls. exact Hcalls.
  - intros e' sc Hrel. split.
    + unfold execute_workflow, bind. rewrite Hinit, Hbody.
      unfold run_finally, bind. now rewrite Hrel.
    + rewrite Hrel in Hcalls. exact Hcalls.
Qed.

(** C2, as the code has it.  When starting the browser raises [e] and the
    session is then closed without error, [execute_workflow] does not raise:
    it returns a result with [success = false], no step executed and the
    single error ["Workflow execution failed: " ++ str(e)]; the only engine
    calls of the run are the start and the close. *)
Theorem start_failure_is_recorded
    (wf : workflow) (s s0 s1 sc : state) (r0 : run_result) (e : exn) :
  initial_results wf s = (inr r0, s0) ->
  start_browser (new_engine (ex_browser_type s0) (ex_headless s0))
    (with_engine (Some (new_engine (ex_browser_type s0) (ex_headless s0))) s0)
  = (inl e, s1) ->
  release s1 = (inr tt, sc) ->
  exists (R : run_result) (s' : state),
    execute_workflow wf s = (inr R, s') /\
    success R = false /\
    steps_executed R = 0%nat /\
    errors R = ["Workflow execution failed: " ++ exn_msg e] /\
    s_calls s' = (s_calls s ++ [EStart; EClose])%list.
Proof.
  intros Hinit Hstart Hrel.
  destruct (initial_results_fields _ _ _ _ Hinit) as (Hn0 & Hs0 & He0 & _ & _ & _ & Hc0).
  exists (set_end_time (isoformat (fst (clock (s_ext sc))))
            (record_failure ("Workflow execution failed: " ++ exn_msg e) r0)),
         (with_ext (snd (clock (s_ext sc))) sc).
  split.
  { unfold execute_workflow, bind. rewrite Hinit. unfold run_body. rewrite Hstart.
    now apply run_finally_returns. }
  simpl. rewrite He0. repeat split; auto.
  pose proof (calls_start_browser
                (new_engine (ex_browser_type s0) (ex_headless s0))
                (with_engine
                   (Some (new_engine (ex_browser_type s0) (ex_headless s0))) s0)) as H1.
  pose proof (start_browser_engine_set
                (new_engine (ex_browser_type s0) (ex_headless s0))
                (with_engine
                   (Some (new_engine (ex_browser_type s0) (ex_headless s0))) s0)) as H2.
  rewrite Hstart in H1, H2. simpl in H1, H2.
  assert (Hset : engine_set s1) by (apply H2; unfold engine_set; simpl; discriminate).
  pose proof (release_calls s1 Hset) as H3. rewrite Hrel in H3. simpl in H3.
  rewrite H3, H1, Hc0, <- app_assoc. reflexivity.
Qed.

(** [execute_workflow] raises only when [len] of the steps raises or when
    closing the browser raises. *)
Lemma execute_workflow_raises (wf : workflow) (s s' : state) (e : exn) :
  execute_workflow wf s = (inl e, s') ->
  initial_results wf s = (inl e, s') \/
  exists sf, release sf = (inl e, s').
Proof.
  unfold execute_workflow, bind. destruct (initial_results wf s) as [[e0 | r0] s0].
  - intros H. left. exact H.
  - destruct (run_body wf r0 s0) as [r sf]. unfold run_finally, bind.
    destruct (release sf) as [[e1 | u] sc] eqn:E.
    + intros H. right. exists sf. congruence.
    + unfold now. destruct (clock (s_ext sc)). discriminate.
Qed.

(** ** Time of day *)

Lemma DAY_pos : 0 < DAY.
Proof. reflexivity. Qed.

Lemma clock_time_bounds (h m : Z) :
  hm_in_range h m = true -> 0 <= clock_time h m < DAY.
Proof.
  unfold hm_in_range, clock_time, DAY, MICRO. intros H.
  apply andb_prop in H as [H Hm2]. apply andb_prop in H as [H Hm1].
  apply andb_prop in H as [Hh1 Hh2].
  apply Z.leb_le in Hh1, Hh2, Hm1, Hm2. lia.
Qed.

Lemma date_time_split (t : Z) : t = date_of t * DAY + time_of t.
Proof. unfold date_of, time_of. pose proof DAY_pos. rewrite Z.mul_comm. apply Z.div_mod. lia. Qed.

Lemma time_of_bounds (t : Z) : 0 <= time_of t < DAY.
Proof. unfold time_of. apply Z.mod_pos_bound. exact DAY_pos. Qed.

Lemma date_of_at (d c : Z) : 0 <= c < DAY -> date_of (d * DAY + c) = d.
Proof.
  intros H. unfold date_of. pose proof DAY_pos.
  rewrite Z.add_comm, Z.div_add by lia. rewrite Z.div_small by exact H. lia.
Qed.

Lemma time_of_at (d c : Z) : 0 <= c < DAY -> time_of (d * DAY + c) = c.
Proof.
  intros H. unfold time_of. pose proof DAY_pos.
  rewrite Z.add_comm, Z.mod_add by lia. now apply Z.mod_small.
Qed.

(** [replace] keeps the day and sets the time of day. *)
Lemma dt_replace_fields (n h m : Z) :
  hm_in_range h m = true ->
  date_of (dt_replace n h m) = date_of n /\ time_of (dt_replace n h m) = clock_time h m.
Proof.
  intros H. apply clock_time_bounds in H. unfold dt_replace.
  split; [now apply date_of_at | now apply time_of_at].
Qed.

Lemma dt_replace_leb (n h m : Z) :
  (dt_replace n h m <=? n) = (clock_time h m <=? time_of n).
Proof.
  unfold dt_replace. pose proof (date_time_split n) as Hn.
  destruct (clock_time h m <=? time_of n) eqn:E.
  - apply Z.leb_le in E. apply Z.leb_le. lia.
  - apply Z.leb_gt in E. apply Z.leb_gt. lia.
Qed.

(** ** Scheduling *)

(** [_get_next_run_time] always returns, reading only the clock; for a time
    string that parses to a time of day in range it returns today's or
    tomorrow's occurrence, as seen from its first reading of the clock. *)
Lemma get_next_run_time_returns (t : string) (s : state) :
  exists (nr : Z) (e : Ext),
    _get_next_run_time t s = (inr nr, with_ext e s) /\
    forall h m,
      parse_hour_minute t = Some (h, m) -> hm_in_range h m = true ->
      let n := fst (clock (s_ext s)) in
      nr = if dt_replace n h m <=? n then dt_replace n h m + DAY else dt_replace n h m.
Proof.
  unfold _get_next_run_time, try_catch, bind, lift.
  destruct (parse_hour_minute t) as [[h m] |]; simpl.
  - unfold now at 1. destruct (clock (s_ext s)) as [n e] eqn:En. simpl.
    destruct (hm_in_range h m) eqn:Hr; simpl.
    + exists (if dt_replace n h m <=? n then dt_replace n h m + DAY else dt_replace n h m), e.
      split; [reflexivity |]. intros h' m' Hp _. now inversion Hp.
    + unfold now. simpl. destruct (clock e) as [n' e']. simpl.
      exists (n' + DAY), e'. split; [reflexivity |].
      intros h' m' Hp Hr'. inversion Hp; subst. congruence.
  - unfold now. destruct (clock (s_ext s)) as [n e]. simpl.
    exists (n + DAY), e. split; [reflexivity | discriminate].
Qed.

Lemma default_name_returns (prefix : string) (job_name : option string) (s : state) :
  default_name prefix job_name s = (inr (name_for prefix job_name s), s).
Proof. unfold default_name, name_for. destruct (falsy_name job_name); reflexivity. Qed.

(** [schedule_workflow] with a time string that the [schedule] library
    accepts: it returns the job's name, adds one job to the library and
    stores a new entry under the name. *)
Lemma schedule_workflow_accepted
    (wf : workflow) (t : string) (job_name : option string) (rep : bool) (s : state) :
  at_check t = None ->
  exists (s' : state) (nr : Z),
    schedule_workflow wf t job_name rep s = (inr (name_for "workflow_" job_name s), s') /\
    scheduled_jobs s'
    = sset (name_for "workflow_" job_name s)
        {| ji_workflow := wf; ji_schedule_time := Some t; ji_interval_minutes := None;
           ji_repeat := rep; ji_created_at := isoformat (fst (clock (s_ext s)));
           ji_last_run := None; ji_next_run := NextRunAt nr;
           ji_last_result := None; ji_last_error := None |}
        (scheduled_jobs s) /\
    lib_jobs s'
    = (lib_jobs s ++
         [{| lj_trigger := DailyAt t; lj_tag := name_for "workflow_" job_name s;
             lj_workflow := wf |}])%list /\
    forall h m,
      parse_hour_minute t = Some (h, m) -> hm_in_range h m = true ->
      let n := fst (clock (snd (clock (s_ext s)))) in
      nr = if dt_replace n h m <=? n then dt_replace n h m + DAY else dt_replace n h m.
Proof.
  intros Hat. unfold schedule_workflow.
  unfold bind at 1. rewrite default_name_returns.
  unfold bind at 1.
  assert (Hreg : (if rep then register_daily wf t (name_for "workflow_" job_name s)
                  else register_daily wf t (name_for "workflow_" job_name s)) s
                 = register_daily wf t (name_for "workflow_" job_name s) s)
    by (destruct rep; reflexivity).
  rewrite Hreg. unfold register_daily. rewrite Hat. unfold modify.
  unfold bind at 1. unfold now at 1. simpl s_ext.
  destruct (clock (s_ext s)) as [created e1] eqn:Ec. simpl fst. simpl snd.
  unfold bind at 1.
  match goal with
  | |- context [_get_next_run_time t ?s1] =>
      destruct (get_next_run_time_returns t s1) as (nr & e2 & Hnr & Hval)
  end.
  rewrite Hnr. unfold bind, put_job, modify, ret.
  eexists. exists nr. split; [reflexivity |]. simpl.
  repeat split; auto.
Qed.

Lemma schedule_workflow_rejected
    (wf : workflow) (t : string) (job_name : option string) (rep : bool) (s : state)
    (e : exn) :
  at_check t = Some e ->
  schedule_workflow wf t job_name rep s = (inl e, s).
Proof.
  intros Hat. unfold schedule_workflow, bind. rewrite default_name_returns.
  unfold register_daily. rewrite Hat. destruct rep; reflexivity.
Qed.

Lemma schedule_interval_returns
    (wf : workflow) (n : Z) (job_name : option string) (s : state) :
  every_check n = EveryReturns ->
  exists (s' : state) (created nr : Z),
    schedule_interval_workflow wf n job_name s
    = (inr (Some (name_for "interval_workflow_" job_name s)), s') /\
    scheduled_jobs s'
    = sset (name_for "interval_workflow_" job_name s)
        {| ji_workflow := wf; ji_schedule_time := None; ji_interval_minutes := Some n;
           ji_repeat := true; ji_created_at := isoformat created;
           ji_last_run := None; ji_next_run := NextRunAt nr;
           ji_last_result := None; ji_last_error := None |}
        (scheduled_jobs s) /\
    lib_jobs s'
    = (lib_jobs s ++
         [{| lj_trigger := EveryMinutes n;
             lj_tag := name_for "interval_workflow_" job_name s;
             lj_workflow := wf |}])%list.
Proof.
  intros Hn. unfold schedule_interval_workflow.
  unfold bind at 1. rewrite default_name_returns.
  unfold register_interval. rewrite Hn.
  unfold bind, modify, now, put_job, ret. simpl.
  destruct (clock (s_ext s)) as [created e1]. simpl.
  destruct (clock e1) as [t e2]. simpl.
  eexists. exists created, (t + n * 60 * MICRO). repeat split.
Qed.

(** When the library raises for the interval, or does not return, nothing
    is registered: the state is as before. *)
Lemma schedule_interval_not_registered
    (wf : workflow) (n : Z) (job_name : option string) (s : state) :
  schedule_interval_workflow wf n job_name s
  = match every_check n with
    | EveryReturns => schedule_interval_workflow wf n job_name s
    | EveryRaises e => (inl e, s)
    | EveryHangs => (inr None, s)
    end.
Proof.
  destruct (every_check n) eqn:Hn; [reflexivity | |];
    unfold schedule_interval_workflow; unfold bind at 1;
    rewrite default_name_returns; unfold register_interval; rewrite Hn;
    reflexivity.
Qed.

Lemma name_for_given (prefix name : string) (s : state) :
  name <> "" -> name_for prefix (Some name) s = name.
Proof.
  intros H. unfold name_for, falsy_name.
  apply String.eqb_neq in H. now rewrite H.
Qed.

(** C5, as the code has it.  Scheduling under a name that is already
    registered, with a time string the [schedule] library accepts, does not
    fail: it returns the name and replaces the entry of that name by a fresh
    one for the new request.  The names in the registry and all other
    entries stay as they are, and the library gets one more job tagged with
    the name. *)
Theorem rescheduling_replaces_entry
    (wf : workflow) (t name : string) (rep : bool) (s : state) :
  name <> "" ->
  smem name (scheduled_jobs s) = true ->
  at_check t = None ->
  exists (s' : state) (j : job_info),
    schedule_workflow wf t (Some name) rep s = (inr name, s') /\
    dict_keys (scheduled_jobs s') = dict_keys (scheduled_jobs s) /\
    sget name (scheduled_jobs s') = Some j /\
    ji_workflow j = wf /\ ji_schedule_time j = Some t /\ ji_repeat j = rep /\
    ji_interval_minutes j = None /\
    ji_created_at j = isoformat (fst (clock (s_ext s))) /\
    ji_last_run j = None /\ ji_last_result j = None /\ ji_last_error j = None /\
    (forall other, other <> name ->
       sget other (scheduled_jobs s') = sget other (scheduled_jobs s)) /\
    lib_jobs s'
    = (lib_jobs s ++
         [{| lj_trigger := DailyAt t; lj_tag := name; lj_workflow := wf |}])%list.
Proof.
  intros Hname Hmem Hat.
  destruct (schedule_workflow_accepted wf t (Some name) rep s Hat)
    as (s' & nr & Hrun & Hjobs & Hlib & _).
  rewrite (name_for_given _ _ _ Hname) in *.
  eexists s', _. split; [exact Hrun |]. rewrite Hjobs, Hlib.
  split; [now apply dict_keys_sset_present |].
  split; [apply sget_sset_same |]. simpl.
  repeat split; auto.
  intros other Hne. apply sget_sset_other. congruence.
Qed.

(** C7. Scheduling a daily job at a valid time of day [h:m] (a time string
    that the [schedule] library accepts and that reads as hour [h] and
    minute [m] in range) stores a next run at time of day [h:m:00]; it is on
    the day after the current one when the current time of day is after
    [h:m], and on the current day when the current time of day is before
    [h:m].  The current time is the clock reading that [_get_next_run_time]
    takes, the second one of the call. *)
Theorem daily_next_run_is_today_or_tomorrow
    (wf : workflow) (t : string) (job_name : option string) (rep : bool) (s : state)
    (h m : Z) :
  at_check t = None ->
  parse_hour_minute t = Some (h, m) ->
  hm_in_range h m = true ->
  let current := fst (clock (snd (clock (s_ext s)))) in
  exists (name : string) (s' : state) (j : job_info) (nr : Z),
    schedule_workflow wf t job_name rep s = (inr name, s') /\
    sget name (scheduled_jobs s') = Some j /\
    ji_next_run j = NextRunAt nr /\
    time_of nr = clock_time h m /\
    (clock_time h m < time_of current -> date_of nr = date_of current + 1) /\
    (time_of current < clock_time h m -> date_of nr = date_of current).
Proof.
  intros Hat Hparse Hrange current.
  destruct (schedule_workflow_accepted wf t job_name rep s Hat)
    as (s' & nr & Hrun & Hjobs & _ & Hnr).
  specialize (Hnr h m Hparse Hrange). fold current in Hnr. simpl in Hnr.
  eexists _, s', _, nr. split; [exact Hrun |]. rewrite Hjobs.
  split; [apply sget_sset_same |]. split; [reflexivity |].
  destruct (dt_replace_fields current h m Hrange) as (Hd & Ht).
  pose proof (clock_time_bounds h m Hrange) as Hb.
  rewrite dt_replace_leb in Hnr.
  destruct (clock_time h m <=? time_of current) eqn:E.
  - apply Z.leb_le in E. subst nr. unfold dt_replace.
    replace (date_of current * DAY + clock_time h m + DAY)
      with ((date_of current + 1) * DAY + clock_time h m) by lia.
    rewrite time_of_at, date_of_at by exact Hb.
    repeat split; auto. lia.
  - apply Z.leb_gt in E. subst nr. rewrite Hd, Ht.
    repeat split; auto. lia.
Qed.

(** ** Removing a job *)

(** C6, on the code.  For a name that is not registered, [remove_job]
    returns [True] (not [False]); it does not raise and leaves the registry
    as it is.  The callers in [cli.py] and [web_interface.py] read [False] as
    "job not found". *)
Theorem remove_absent_job_returns_true (name : string) (s : state) :
  smem name (scheduled_jobs s) = false ->
  remove_job name s = (inr true, with_lib_jobs (clear_tag name (lib_jobs s)) s)
  /\ scheduled_jobs (snd (remove_job name s)) = scheduled_jobs s.
Proof.
  intros H. unfold remove_job, try_catch, bind, modify, get_state. simpl.
  rewrite H. simpl. split; reflexivity.
Qed.

(** [remove_job] returns [True] in every case. *)
Lemma remove_job_always_true (name : string) (s : state) :
  fst (remove_job name s) = inr true.
Proof.
  unfold remove_job, try_catch, bind, modify, get_state. simpl.
  destruct (smem name (scheduled_jobs s)); reflexivity.
Qed.

(** ** Dispatching a scheduled run *)

Lemma update_job_present (name : string) (u : job_info -> job_info) (j : job_info)
    (s : state) :
  sget name (scheduled_jobs s) = Some j ->
  update_job name u s = (inr tt, with_jobs (sset name (u j) (scheduled_jobs s)) s).
Proof. intros H. unfold update_job, modify. now rewrite H. Qed.

Lemma sget_some_smem (V : Type) (k : string) (v : V) (d : list (string * V)) :
  sget k d = Some v -> smem k d = true.
Proof. intros H. unfold dict_mem. now rewrite H. Qed.

(** C4, as the code has it.  A dispatched run of a registered job never
    raises and rewrites only the job's own entry.  When [execute_workflow]
    returns a result [R] (a run that succeeded or one that stopped at a failed
    step), the entry gets the last-run time stamp and [R] as last result;
    [last_error] is written only when [execute_workflow] or the saving of the
    result raises.  [next_run], the trigger and the creation time are never
    touched. *)
Theorem dispatch_updates_last_run_only
    (wf : workflow) (name : string) (s : state) (j : job_info) :
  sget name (scheduled_jobs s) = Some j ->
  exists (s' : state) (j' : job_info),
    _execute_scheduled_workflow wf name s = (inr tt, s') /\
    sget name (scheduled_jobs s') = Some j' /\
    dict_keys (scheduled_jobs s') = dict_keys (scheduled_jobs s) /\
    (forall other, other <> name ->
       sget other (scheduled_jobs s') = sget other (scheduled_jobs s)) /\
    ji_next_run j' = ji_next_run j /\
    ji_schedule_time j' = ji_schedule_time j /\
    ji_interval_minutes j' = ji_interval_minutes j /\
    ji_repeat j' = ji_repeat j /\
    ji_created_at j' = ji_created_at j /\
    match execute_workflow wf s with
    | (inr R, s1) =>
        ji_last_run j' = Some (isoformat (fst (clock (s_ext s1)))) /\
        ji_last_result j' = Some R /\
        (ji_last_error j' = ji_last_error j \/
         exists e file s2 s3,
           save_results R (Some file) s2 = (inl e, s3) /\
           ji_last_error j' = Some (exn_msg e))
    | (inl e, _) =>
        ji_last_run j' = ji_last_run j /\
        ji_last_result j' = ji_last_result j /\
        ji_last_error j' = Some (exn_msg e)
    end.
Proof.
  intros Hj.
  pose proof (stable_execute_workflow scheduled_jobs ext_free_jobs calls_free_jobs
                engine_free_jobs wf s) as Hst.
  unfold _execute_scheduled_workflow, try_catch.
  unfold bind at 1.
  destruct (execute_workflow wf s) as [[e | R] s1]; simpl in Hst.
  - rewrite <- Hst in Hj. rewrite (update_job_present _ _ _ _ Hj).
    eexists _, _. split; [reflexivity |]. simpl. rewrite Hst.
    split; [apply sget_sset_same |].
    split; [apply dict_keys_sset_present; rewrite <- Hst; eapply sget_some_smem; eauto |].
    split; [intros other Hne; apply sget_sset_other; congruence |].
    simpl. repeat split; auto.
  - unfold bind at 1. unfold get_state at 1. cbv beta iota.
    rewrite <- Hst in Hj. rewrite (sget_some_smem _ _ _ _ Hj).
    unfold bind at 1. unfold bind at 1. unfold now at 1.
    destruct (clock (s_ext s1)) as [t1 e1] eqn:Ec. cbv beta iota.
    rewrite (update_job_present name _ j (with_ext e1 s1) Hj).
    unfold bind at 1. unfold now at 1. simpl s_ext.
    destruct (clock e1) as [t2 e2]. cbv beta iota.
    unfold bind at 1.
    match goal with
    | |- context [save_results R ?f ?s2] =>
        pose proof (stable_save_results scheduled_jobs ext_free_jobs R f s2) as Hsave;
        destruct (save_results R f s2) as [[e | path] s3] eqn:Es
    end; simpl in Hsave.
    + assert (Hj3 : sget name (scheduled_jobs s3)
                    = Some (set_last_run (isoformat t1) R j))
        by (rewrite Hsave; apply sget_sset_same).
      rewrite (update_job_present _ _ _ _ Hj3).
      eexists _, _. split; [reflexivity |]. simpl. rewrite Hsave.
      assert (Hmem : smem name (scheduled_jobs s1) = true)
        by (eapply sget_some_smem; eauto).
      split; [apply sget_sset_same |].
      split; [rewrite !dict_keys_sset_present, Hst; auto;
              unfold dict_mem; now rewrite sget_sset_same |].
      split; [intros other Hne; rewrite !sget_sset_other, Hst by congruence; auto |].
      simpl. repeat split; auto.
      right. eexists e, _, _, s3. split; [exact Es | reflexivity].
    + eexists _, _. split; [reflexivity |]. simpl. rewrite Hsave.
      assert (Hmem : smem name (scheduled_jobs s1) = true)
        by (eapply sget_some_smem; eauto).
      split; [apply sget_sset_same |].
      split; [rewrite dict_keys_sset_present, Hst; auto |].
      split; [intros other Hne; rewrite sget_sset_other, Hst by congruence; auto |].
      simpl. repeat split; auto.
Qed.

(** ** The registry invariant *)

Lemma registry_ok_sset (reg : registry) (k : string) (j : job_info) :
  registry_ok reg -> job_ok (k, j) -> registry_ok (sset k j reg).
Proof.
  intros [Hall Hnd] Hj. split.
  - clear Hnd. induction reg as [|[k' j'] reg IH]; simpl.
    + constructor; auto.
    + inversion Hall; subst.
      destruct (String.eqb k k') eqn:E.
      * apply String.eqb_eq in E. subst k'. constructor; auto.
      * constructor; auto.
  - destruct (smem k reg) eqn:E.
    + now rewrite dict_keys_sset_present.
    + rewrite dict_keys_sset_absent by exact E.
      apply smem_false_not_in in E.
      apply NoDup_app; [exact Hnd | repeat constructor; simpl; tauto |].
      intros x Hx [Hx' | []]. subst. contradiction.
Qed.

Lemma sdel_keys_incl (reg : registry) (k x : string) :
  In x (dict_keys (sdel k reg)) -> In x (dict_keys reg).
Proof.
  induction reg as [|[k' j'] reg IH]; simpl; auto.
  destruct (String.eqb k k'); simpl; tauto.
Qed.

Lemma registry_ok_sdel (reg : registry) (k : string) :
  registry_ok reg -> registry_ok (sdel k reg).
Proof.
  intros [Hall Hnd]. split.
  - clear Hnd. induction reg as [|[k' j'] reg IH]; simpl; auto.
    inversion Hall; subst. destruct (String.eqb k k'); auto.
  - induction reg as [|[k' j'] reg IH]; simpl; auto.
    inversion Hall; subst. simpl in Hnd. inversion Hnd; subst.
    destruct (String.eqb k k'); auto.
    simpl. constructor; auto.
    intros Hin. apply sdel_keys_incl in Hin. contradiction.
Qed.

Lemma registry_ok_lookup (reg : registry) (k : string) (j : job_info) :
  Forall job_ok reg -> sget k reg = Some j -> job_ok (k, j).
Proof.
  intros Hall. induction reg as [|[k' j'] reg IH]; simpl; [discriminate |].
  inversion Hall; subst.
  destruct (String.eqb k k') eqn:E.
  - apply String.eqb_eq in E. subst k'. intros H. inversion H; subst. assumption.
  - auto.
Qed.

Lemma name_for_nonempty (prefix : string) (job_name : option string) (s : state) :
  prefix <> "" -> name_for prefix job_name s <> "".
Proof.
  intros Hp. unfold name_for, falsy_name.
  destruct job_name as [n |].
  - destruct (String.eqb n "") eqn:E.
    + destruct prefix; [congruence | discriminate].
    + now apply String.eqb_neq.
  - destruct prefix; [congruence | discriminate].
Qed.

Lemma sched_ok_ext (e : Ext) (s : state) : sched_ok s -> sched_ok (with_ext e s).
Proof. auto. Qed.

Lemma keeps_schedule_workflow wf t name rep :
  keeps sched_ok (schedule_workflow wf t name rep).
Proof.
  intros s Hs. destruct (at_check t) as [e |] eqn:Hat.
  - now rewrite (schedule_workflow_rejected wf t name rep s e Hat).
  - destruct (schedule_workflow_accepted wf t name rep s Hat)
      as (s' & nr & Hrun & Hjobs & _).
    rewrite Hrun. unfold sched_ok. simpl. rewrite Hjobs.
    apply registry_ok_sset; [exact Hs |].
    split; simpl; [apply name_for_nonempty; discriminate | eauto].
Qed.

Lemma keeps_schedule_interval wf n name :
  keeps sched_ok (schedule_interval_workflow wf n name).
Proof.
  intros s Hs. destruct (every_check n) eqn:Hn.
  - destruct (schedule_interval_returns wf n name s Hn)
      as (s' & c & nr & Hrun & Hjobs & _).
    rewrite Hrun. unfold sched_ok. simpl. rewrite Hjobs.
    apply registry_ok_sset; [exact Hs |].
    split; simpl; [apply name_for_nonempty; discriminate | auto].
  - rewrite schedule_interval_not_registered, Hn. exact Hs.
  - rewrite schedule_interval_not_registered, Hn. exact Hs.
Qed.

Lemma keeps_update_job name (u : job_info -> job_info) :
  (forall j, ji_interval_minutes (u j) = ji_interval_minutes j /\
             ji_schedule_time (u j) = ji_schedule_time j /\
             ji_repeat (u j) = ji_repeat j) ->
  keeps sched_ok (update_job name u).
Proof.
  intros Hu. apply keeps_modify. intros s Hs.
  destruct (sget name (scheduled_jobs s)) as [j |] eqn:E; [| exact Hs].
  unfold sched_ok. simpl. apply registry_ok_sset; [exact Hs |].
  pose proof (registry_ok_lookup _ _ _ (proj1 Hs) E) as [Hn Hj].
  destruct (Hu j) as (H1 & H2 & H3).
  split; [exact Hn |]. simpl in *. rewrite H1, H2, H3. exact Hj.
Qed.

Lemma keeps_dispatch wf name : keeps sched_ok (_execute_scheduled_workflow wf name).
Proof.
  unfold _execute_scheduled_workflow.
  apply keeps_try_catch.
  - apply keeps_bind.
    { apply (stable_keeps scheduled_jobs registry_ok).
      apply stable_execute_workflow; auto with stable. }
    intros R. apply keeps_bind; [apply keeps_get_state |]. intros s0.
    apply keeps_bind.
    { apply keeps_if; [| apply keeps_ret].
      apply keeps_bind; [apply keeps_now; apply sched_ok_ext |].
      intros t. apply keeps_update_job. intros j. simpl. auto. }
    intros _. apply keeps_bind; [apply keeps_now; apply sched_ok_ext |].
    intros t. apply keeps_bind; [| intros; apply keeps_ret].
    apply (stable_keeps scheduled_jobs registry_ok).
    apply stable_save_results; auto with stable.
  - intros e. apply keeps_update_job. intros j. simpl. auto.
Qed.

Lemma keeps_remove_job name : keeps sched_ok (remove_job name).
Proof.
  intros s Hs. unfold remove_job, try_catch, bind, modify, get_state. simpl.
  destruct (smem name (scheduled_jobs s)); simpl; [| exact Hs].
  unfold sched_ok. simpl. now apply registry_ok_sdel.
Qed.

Lemma stable_save_schedule filename : stable scheduled_jobs (save_schedule filename).
Proof. unfold save_schedule. stable_steps. Qed.

Lemma keeps_load_job (k : string) (info : job_info) : keeps sched_ok (load_job k info).
Proof.
  unfold load_job. destruct (ji_interval_minutes info).
  - apply keeps_schedule_interval.
  - destruct (ji_schedule_time info).
    + apply keeps_bind; [apply keeps_schedule_workflow | intros; apply keeps_ret].
    + apply keeps_raise.
Qed.

Lemma keeps_load_jobs (data : registry) : keeps sched_ok (load_jobs data).
Proof.
  induction data as [|[k info] data IH]; simpl.
  - apply keeps_ret.
  - apply keeps_bind; [apply keeps_load_job |].
    intros [u |]; [exact IH | apply keeps_ret].
Qed.

Lemma keeps_load_schedule path : keeps sched_ok (load_schedule path).
Proof.
  unfold load_schedule.
  apply keeps_bind; [apply keeps_read_schedule; apply sched_ok_ext |].
  intros data. apply keeps_bind; [apply keeps_modify; auto |].
  intros _. apply keeps_bind; [| intros _; apply keeps_load_jobs].
  apply keeps_modify. intros s _. split; constructor.
Qed.

(** Every reachable state satisfies the registry invariant. *)
Lemma reachable_sched_ok (s : state) : reachable s -> sched_ok s.
Proof.
  induction 1.
  - unfold sched_ok. rewrite H. split; constructor.
  - now apply keeps_schedule_workflow.
  - now apply keeps_schedule_interval.
  - now apply keeps_dispatch.
  - unfold sched_ok. now rewrite stable_execute_workflow by auto with stable.
  - now apply keeps_remove_job.
  - unfold sched_ok. now rewrite stable_save_schedule.
  - now apply keeps_load_schedule.
Qed.

(** ** Saving and loading the schedule *)

Lemma sget_cons (V : Type) (k k' : string) (v : V) (d : list (string * V)) :
  sget k ((k', v) :: d) = if String.eqb k k' then Some v else sget k d.
Proof. reflexivity. Qed.

(** Loading the saved form of [data] into a registry that holds none of its
    names appends the names of [data], in order, each with the trigger spec
    it had. *)
Lemma load_jobs_rebuilds (data : registry) :
  forall s : state,
    Forall job_ok data ->
    NoDup (dict_keys data) ->
    (forall k, In k (dict_keys data) -> smem k (scheduled_jobs s) = false) ->
    exists s' : state,
      load_jobs (schedule_data data) s = (inr (Some tt), s') /\
      dict_keys (scheduled_jobs s') = (dict_keys (scheduled_jobs s) ++ dict_keys data)%list /\
      (forall k j, sget k data = Some j ->
         exists j', sget k (scheduled_jobs s') = Some j' /\ same_trigger j j') /\
      (forall k, ~ In k (dict_keys data) ->
         sget k (scheduled_jobs s') = sget k (scheduled_jobs s)).
Proof.
  induction data as [|[k j] data IH]; intros s Hall Hnd Hfresh.
  - exists s. simpl. rewrite app_nil_r. repeat split; auto. discriminate.
  - inversion Hall as [| ? ? [Hk Hj] Hall']; subst. simpl in Hk, Hj.
    simpl in Hnd. inversion Hnd as [| ? ? Hnotin Hnd']; subst.
    assert (Hkfresh : smem k (scheduled_jobs s) = false)
      by (apply Hfresh; simpl; auto).
    (* the first entry is registered again under its own name *)
    assert (Hfirst : exists (s1 : state) (j1 : job_info),
              load_job k (saved_entry j) s = (inr (Some k), s1) /\
              scheduled_jobs s1 = sset k j1 (scheduled_jobs s) /\
              same_trigger j j1).
    { unfold load_job.
      cbn [saved_entry ji_interval_minutes ji_schedule_time ji_workflow ji_repeat].
      destruct (ji_interval_minutes j) as [n |] eqn:En.
      - destruct Hj as (Ht & Hr & Hn).
        destruct (schedule_interval_returns (ji_workflow j) n (Some k) s Hn)
          as (s1 & c & nr & Hrun & Hjobs & _).
        rewrite (name_for_given _ _ _ Hk) in *.
        eexists s1, _. split; [exact Hrun |]. split; [exact Hjobs |].
        unfold same_trigger. simpl. rewrite Ht, Hr, En. auto.
      - destruct Hj as (t & Ht & Hat). rewrite Ht.
        destruct (schedule_workflow_accepted (ji_workflow j) t (Some k) (ji_repeat j) s Hat)
          as (s1 & nr & Hrun & Hjobs & _).
        rewrite (name_for_given _ _ _ Hk) in *.
        eexists s1, _. split; [unfold bind; now rewrite Hrun |].
        split; [exact Hjobs |].
        unfold same_trigger. simpl. rewrite Ht, En. auto. }
    destruct Hfirst as (s1 & j1 & Hrun & Hjobs & Hsame).
    destruct (IH s1 Hall' Hnd') as (s' & Hload & Hkeys & Hget & Hother).
    { intros k' Hin. rewrite Hjobs, smem_sset_other.
      - apply Hfresh. simpl. auto.
      - intros ->. contradiction. }
    exists s'. split.
    { cbn [schedule_data map load_jobs fst snd].
      unfold bind at 1. rewrite Hrun. exact Hload. }
    split.
    { rewrite Hkeys, Hjobs, dict_keys_sset_absent by exact Hkfresh.
      simpl. now rewrite <- app_assoc. }
    split.
    + intros k' j' Hlook. rewrite sget_cons in Hlook.
      destruct (String.eqb k' k) eqn:E.
      * apply String.eqb_eq in E. subst k'. inversion Hlook; subst j'.
        exists j1. split; [| exact Hsame].
        rewrite (Hother k Hnotin), Hjobs. apply sget_sset_same.
      * now apply Hget.
    + intros k' Hnot. simpl in Hnot.
      rewrite Hother by tauto. rewrite Hjobs. apply sget_sset_other. tauto.
Qed.

(** A save that succeeds has written the saved form of the registry to the
    path it returns, and the outside world after the save is the one the
    write left. *)
Lemma save_schedule_writes (filename : option string) (path : string) (s s1 : state) :
  save_schedule filename s = (inr path, s1) ->
  exists (e : Ext) (r : scalar),
    lib (fs_write_schedule path (schedule_data (scheduled_jobs s))) e = (inr r, s_ext s1).
Proof.
  unfold save_schedule, bind, call, get_state, ret, now.
  destruct (falsy_name filename).
  - destruct (clock (s_ext s)) as [t e0]. simpl.
    destruct (lib (fs_makedirs "schedules") e0) as [[x | u] e1]; simpl; [discriminate |].
    destruct (lib (fs_write_schedule _ _) e1) as [[x | r] e2] eqn:Hw; simpl;
      intros H; inversion H; subst. simpl. eauto.
  - destruct (lib (fs_makedirs "schedules") (s_ext s)) as [[x | u] e1]; simpl;
      [discriminate |].
    destruct (lib (fs_write_schedule _ _) e1) as [[x | r] e2] eqn:Hw; simpl;
      intros H; inversion H; subst. simpl. eauto.
Qed.

(** C8. From any state the scheduler can reach, on a file system that
    gives back a schedule file as it was written: when [save_schedule]
    succeeds, [load_schedule] of the saved file, run by a scheduler that
    holds any registry [reg] and any library jobs [triggers], returns and
    leaves a registry with the job names of the saved one (in the same
    order), each with the trigger spec it had: the same [schedule_time] and
    [repeat], or the same [interval_minutes]. *)
Theorem save_then_load_keeps_names_and_triggers
    (filename : option string) (path : string) (s s1 : state)
    (reg : registry) (triggers : list lib_job) :
  reachable s ->
  (forall (p : string) (doc : registry) (e e' : Ext) (r : scalar),
     lib (fs_write_schedule p doc) e = (inr r, e') ->
     fs_read_schedule p e' = (inr doc, e')) ->
  save_schedule filename s = (inr path, s1) ->
  exists s2 : state,
    load_schedule path (with_lib_jobs triggers (with_jobs reg s1)) = (inr (Some tt), s2) /\
    dict_keys (scheduled_jobs s2) = dict_keys (scheduled_jobs s) /\
    forall name j,
      sget name (scheduled_jobs s) = Some j ->
      exists j', sget name (scheduled_jobs s2) = Some j' /\ same_trigger j j'.
Proof.
  intros Hreach Hfs Hsave.
  destruct (reachable_sched_ok s Hreach) as [Hall Hnd].
  destruct (save_schedule_writes filename path s s1 Hsave) as (e & r & Hwrite).
  apply Hfs in Hwrite.
  unfold load_schedule, bind, read_schedule. simpl s_ext. rewrite Hwrite.
  unfold modify.
  match goal with
  | |- context [load_jobs _ ?st] =>
      destruct (load_jobs_rebuilds (scheduled_jobs s) st Hall Hnd)
        as (s2 & Hload & Hkeys & Hget & _)
  end.
  { intros k _. reflexivity. }
  exists s2. split; [exact Hload |]. split; [exact Hkeys | exact Hget].
Qed.

(** * Further properties of the code *)

(** ** The outcome of the loop over the steps *)




(** X1. When the session starts, every step succeeds and the session is
    closed without error, the run counts all the steps, reports success and
    records no error. *)
Theorem all_steps_succeed_run
    (wf : workflow) (l : list step) (s s0 s1 sN sc : state) (r0 rN : run_result) :
  sget "steps" wf = Some (WSteps l) ->
  initial_results wf s = (inr r0, s0) ->
  start_browser (new_engine (ex_browser_type s0) (ex_headless s0))
    (with_engine (Some (new_engine (ex_browser_type s0) (ex_headless s0))) s0)
  = (inr tt, s1) ->
  run_steps 1 (map IStep l) r0 s1 = (rN, sN) ->
  success rN = true ->
  release sN = (inr tt, sc) ->
  exists (R : run_result) (s' : state),
    execute_workflow wf s = (inr R, s') /\
    steps_executed R = List.length l /\
    total_steps R = List.length l /\
    success R = true /\
    errors R = [] /\
    screenshots R = screenshots rN /\
    extracted_data R = extracted_data rN.
Proof.
  intros Hsteps Hinit Hstart Hrun Hok Hrel.
  destruct (initial_results_fields _ _ _ _ Hinit) as (Hn0 & Hs0 & He0 & Hlen & _ & _ & _).
  destruct (run_steps_prefix _ _ _ _ _ _ Hrun Hok) as (Hn & He & Ht & _).
  exists (set_end_time (isoformat (fst (clock (s_ext sc)))) rN),
         (with_ext (snd (clock (s_ext sc))) sc).
  split.
  { unfold execute_workflow, bind. rewrite Hinit. unfold run_body. rewrite Hstart.
    unfold steps_of. rewrite Hsteps. simpl iter_items. rewrite Hrun.
    now apply run_finally_returns. }
  simpl. rewrite Hn, Hn0, He, He0, Ht, length_map.
  unfold steps_of in Hlen. rewrite Hsteps in Hlen. simpl in Hlen.
  repeat split; auto. congruence.
Qed.


(** ** The session of a run *)

Lemma step_calls_stable {A} (m : M A) : stable s_calls m -> makes_step_calls m.
Proof. intros H s. exists []. rewrite H, app_nil_r. auto. Qed.

Lemma step_calls_bind {A C} (m : M A) (k : A -> M C) :
  makes_step_calls m -> (forall a, makes_step_calls (k a)) ->
  makes_step_calls (bind m k).
Proof.
  intros Hm Hk s. unfold bind. destruct (Hm s) as (mid & Hc & Hf).
  destruct (m s) as [[e | a] s1]; simpl in *.
  - eauto.
  - destruct (Hk a s1) as (mid' & Hc' & Hf').
    exists (mid ++ mid')%list. rewrite Hc', Hc, app_assoc. split; auto.
    apply Forall_app. auto.
Qed.

Lemma step_calls_record {A} (c : ecall) (m : M A) :
  is_step_call c -> stable s_calls m ->
  makes_step_calls (bind (record_call c) (fun _ => m)).
Proof.
  intros Hc Hm s. exists [c]. rewrite record_then_stable by exact Hm. auto.
Qed.

Lemma step_calls_if {A} (b : bool) (m1 m2 : M A) :
  makes_step_calls m1 -> makes_step_calls m2 ->
  makes_step_calls (if b then m1 else m2).
Proof. destruct b; auto. Qed.

Lemma engine_method_calls (g : engine) :
  (forall url, makes_step_calls (navigate_to url g)) /\
  (forall a b, makes_step_calls (click_element a b g)) /\
  (forall a b c, makes_step_calls (type_text a b c g)) /\
  (forall a b c, makes_step_calls (wait_for_element a b c g)) /\
  (forall a b, makes_step_calls (get_text a b g)) /\
  (forall a, makes_step_calls (take_screenshot a g)).
Proof.
  repeat split; intros;
    (unfold navigate_to, click_element, type_text, wait_for_element, get_text,
       take_screenshot);
    apply step_calls_record; try exact I; stable_steps.
Qed.

Lemma execute_step_calls (st : step) (r : run_result) :
  makes_step_calls (_execute_step st r).
Proof.
  unfold _execute_step.
  repeat first
    [ apply step_calls_if
    | apply step_calls_stable; solve [ stable_steps ]
    | apply (proj1 (engine_method_calls _))
    | apply (proj1 (proj2 (engine_method_calls _)))
    | apply (proj1 (proj2 (proj2 (engine_method_calls _))))
    | apply (proj1 (proj2 (proj2 (proj2 (engine_method_calls _)))))
    | apply (proj1 (proj2 (proj2 (proj2 (proj2 (engine_method_calls _))))))
    | apply (proj2 (proj2 (proj2 (proj2 (proj2 (engine_method_calls _))))))
    | apply step_calls_bind; [ | intros ? ] ].
Qed.

Lemma run_steps_calls (items : list item) :
  forall (i : nat) (r : run_result) (s : state),
  exists mid,
    s_calls (snd (run_steps i items r s)) = (s_calls s ++ mid)%list /\
    Forall is_step_call mid.
Proof.
  induction items as [|it items IH]; intros i r s; simpl.
  - exists []. rewrite app_nil_r. auto.
  - assert (Hit : makes_step_calls (execute_item it r)).
    { destruct it; simpl; [apply execute_step_calls |].
      apply step_calls_stable. auto with stable. }
    destruct (Hit s) as (mid & Hc & Hf).
    destruct (execute_item it r s) as [[e | r1] s1]; simpl in *.
    + eauto.
    + destruct (IH (S i) (step_done r1) s1) as (mid' & Hc' & Hf').
      exists (mid ++ mid')%list. rewrite Hc', Hc, app_assoc. split; auto.
      apply Forall_app. auto.
Qed.

Lemma run_body_calls (wf : workflow) (r : run_result) (s : state) :
  engine_set (snd (run_body wf r s)) /\
  exists mid,
    s_calls (snd (run_body wf r s)) = (s_calls s ++ EStart :: mid)%list /\
    Forall is_step_call mid.
Proof.
  unfold run_body.
  pose proof (calls_start_browser (new_engine (ex_browser_type s) (ex_headless s))
                (with_engine (Some (new_engine (ex_browser_type s) (ex_headless s))) s))
    as Hc.
  pose proof (start_browser_engine_set (new_engine (ex_browser_type s) (ex_headless s))
                (with_engine (Some (new_engine (ex_browser_type s) (ex_headless s))) s))
    as Hset.
  assert (Hset' : engine_set (snd (start_browser
                    (new_engine (ex_browser_type s) (ex_headless s))
                    (with_engine
                       (Some (new_engine (ex_browser_type s) (ex_headless s))) s))))
    by (apply Hset; unfold engine_set; simpl; discriminate).
  clear Hset.
  destruct (start_browser _ _) as [[e | u] s1]; simpl in *.
  - split; [exact Hset' |]. exists []. auto.
  - split.
    + unfold engine_set in *.
      now rewrite (run_steps_frame ex_engine ext_free_engine calls_free_engine).
    + destruct (run_steps_calls (iter_items (steps_of wf)) 1 r s1) as (mid & Hm & Hf).
      exists mid. rewrite Hm, Hc, <- app_assoc. auto.
Qed.

(** X3. Whenever [execute_workflow] gets past the set-up of its results, the
    engine calls of the run are one start, then calls of steps, then one
    close, whether the run returns or raises: the session is closed on every
    path and never started or closed twice. *)
Theorem session_is_opened_and_closed_once
    (wf : workflow) (s s0 : state) (r0 : run_result) :
  initial_results wf s = (inr r0, s0) ->
  exists mid,
    s_calls (snd (execute_workflow wf s))
    = (s_calls s ++ EStart :: mid ++ [EClose])%list /\
    Forall is_step_call mid.
Proof.
  intros Hinit.
  destruct (initial_results_fields _ _ _ _ Hinit) as (_ & _ & _ & _ & _ & _ & Hc0).
  unfold execute_workflow, bind. rewrite Hinit.
  destruct (run_body_calls wf r0 s0) as (Hset & mid & Hc & Hf).
  destruct (run_body wf r0 s0) as [r sf]. simpl in Hset, Hc.
  exists mid. split; [| exact Hf].
  unfold run_finally, bind.
  pose proof (release_calls sf Hset) as Hrel.
  destruct (release sf) as [[e | u] sc]; simpl in *.
  - rewrite Hrel, Hc, Hc0, <- app_assoc. reflexivity.
  - unfold now. destruct (clock (s_ext sc)). simpl.
    rewrite Hrel, Hc, Hc0, <- app_assoc. reflexivity.
Qed.

(** X4. With Playwright, when [async_playwright().start()] itself raises,
    the attribute [playwright] of the engine is never assigned;
    [close_browser] then raises an [AttributeError] in the [finally] block,
    and [execute_workflow] raises this error instead of returning the failed
    result. *)
Theorem playwright_start_failure_raises_attribute_error
    (wf : workflow) (s s0 : state) (r0 : run_result) (e : exn) (ext' : Ext) :
  initial_results wf s = (inr r0, s0) ->
  ex_browser_type s = "playwright" ->
  lib async_playwright_start (s_ext s0) = (inl e, ext') ->
  exists s',
    execute_workflow wf s
    = (inl (AttributeError
              "'BrowserAutomationEngine' object has no attribute 'playwright'"), s') /\
    s_calls s' = (s_calls s ++ [EStart; EClose])%list.
Proof.
  intros Hinit Hbt Hlib.
  destruct (initial_results_fields _ _ _ _ Hinit) as (_ & _ & _ & _ & Hbt0 & _ & Hc0).
  rewrite <- Hbt0 in Hbt.
  assert (Hstart : forall g s1,
            browser_type g = "playwright" ->
            lib async_playwright_start (s_ext s1) = (inl e, ext') ->
            start_browser g s1
            = (inl e, with_ext ext' (with_calls (s_calls s1 ++ [EStart]) s1))).
  { intros g s1 Hg Hl.
    unfold start_browser, bind, record_call, modify, is_playwright, _start_playwright,
      bind, call.
    rewrite Hg. simpl. rewrite Hl. reflexivity. }
  assert (Hclose : forall g s1,
            browser_type g = "playwright" -> playwright g = false ->
            playwright_page g = false -> playwright_browser g = false ->
            close_browser g s1
            = (inl (AttributeError
                      "'BrowserAutomationEngine' object has no attribute 'playwright'"),
               with_calls (s_calls s1 ++ [EClose]) s1)).
  { intros g s1 Hg H1 H2 H3.
    unfold close_browser, bind, record_call, modify, is_playwright, when.
    rewrite Hg, H1, H2, H3. reflexivity. }
  unfold execute_workflow, bind. rewrite Hinit.
  unfold run_body. rewrite Hstart by (simpl; auto).
  unfold run_finally, release, bind, get_state.
  cbn [ex_engine with_ext with_calls with_engine].
  rewrite Hclose by (simpl; auto).
  eexists. split; [reflexivity |].
  cbn [s_calls with_ext with_calls with_engine].
  rewrite Hc0, <- app_assoc. reflexivity.
Qed.

(** ** Steps *)

(** X5. A step whose action is missing or is none of the six known ones is
    refused with ["Unknown action: ..."] and makes no engine call; the state
    is left as it is. *)
Theorem unknown_action_is_refused (st : step) (r : run_result) (s : state) :
  str_in (step_get "action" st) valid_actions = false ->
  _execute_step st r s
  = (inl (ValueError ("Unknown action: " ++ py_str (step_get "action" st))), s).
Proof.
  unfold str_in, valid_actions. cbn [existsb]. intros H.
  repeat (apply orb_false_elim in H; destruct H as [?H H]).
  unfold _execute_step.
  repeat match goal with Hx : is_str _ _ = false |- _ => rewrite Hx; clear Hx end.
  reflexivity.
Qed.

(** ** Extracted data *)

Lemma py_eqb_refl (k : scalar) : py_eqb k k = true.
Proof.
  destruct k as [| b | z | str]; simpl; auto.
  - destruct b; reflexivity.
  - apply Z.eqb_refl.
  - apply String.eqb_refl.
Qed.

Lemma py_eqb_eq_keys (a b c : scalar) :
  py_eqb a c = true -> py_eqb b c = true -> py_eqb b a = true.
Proof.
  destruct a as [| x | x | x], b as [| y | y | y], c as [| z | z | z];
    simpl; try discriminate; try reflexivity; intros H1 H2;
    repeat match goal with v : bool |- _ => destruct v end;
    rewrite ?Z.eqb_eq, ?String.eqb_eq in *;
    try (apply Z.eqb_eq; lia); try (apply String.eqb_eq; congruence);
    try reflexivity; try lia; try congruence.
Qed.

Lemma pget_pset_same (k v : scalar) (d : list (scalar * scalar)) :
  dict_get py_eqb k (dict_set py_eqb k v d) = Some v.
Proof.
  induction d as [|[k0 v0] d IH]; simpl.
  - now rewrite py_eqb_refl.
  - destruct (py_eqb k k0) eqn:E; simpl; rewrite E; auto.
Qed.

Lemma pget_pset_other (k k' v : scalar) (d : list (scalar * scalar)) :
  py_eqb k' k = false ->
  dict_get py_eqb k' (dict_set py_eqb k v d) = dict_get py_eqb k' d.
Proof.
  intros Hne. induction d as [|[k0 v0] d IH]; simpl.
  - now rewrite Hne.
  - destruct (py_eqb k k0) eqn:E; simpl.
    + destruct (py_eqb k' k0) eqn:E'; auto.
      rewrite (py_eqb_eq_keys _ _ _ E E') in Hne. discriminate.
    + now rewrite IH.
Qed.

Lemma plength_pset (k v : scalar) (d : list (scalar * scalar)) :
  (List.length d <= List.length (dict_set py_eqb k v d) <= S (List.length d))%nat.
Proof.
  induction d as [|[k0 v0] d IH]; simpl; [lia |].
  destruct (py_eqb k k0); simpl; lia.
Qed.

Lemma get_text_returns_text (a b : scalar) (g : engine) :
  returns (fun v => exists t, v = SStr t) (get_text a b g).
Proof.
  unfold get_text. apply returns_bind. intros _. apply returns_bind. intros text.
  destruct text as [| b0 | z | str]; intros s0 x s1 H;
    unfold bind, lift, py_slice_check, raise, ret in H;
    inversion H; eauto.
Qed.

(** X6. A get_text step that succeeds stores a text under its key, the
    value of [key] or ["text_N"] for the number [N] of entries extracted so
    far; reading the key back gives that text, every other key keeps its
    value, the number of entries grows by at most one, and the screenshots
    and the counters of the run are not touched. *)
Theorem extracted_text_is_stored
    (st : step) (r r' : run_result) (s s' : state) :
  sget "action" st = Some (SStr "get_text") ->
  _execute_step st r s = (inr r', s') ->
  let key :=
    step_get_default "key"
      (SStr ("text_" ++ nat_to_string (List.length (extracted_data r)))) st in
  exists text : string,
    dict_get py_eqb key (extracted_data r') = Some (SStr text) /\
    (forall k, py_eqb k key = false ->
       dict_get py_eqb k (extracted_data r') = dict_get py_eqb k (extracted_data r)) /\
    (List.length (extracted_data r) <= List.length (extracted_data r')
     <= S (List.length (extracted_data r)))%nat /\
    screenshots r' = screenshots r /\
    same_progress r r'.
Proof.
  intros Hact Hrun key. revert Hrun. step_branch Hact.
  destruct (truthy (step_get "selector" st)); cbn [negb]; [| discriminate].
  unfold bind at 1. destruct (the_engine "get_text" s) as [[e | g] s1]; [discriminate |].
  unfold bind.
  pose proof (get_text_returns_text (step_get "selector" st)
                (step_get_default "selector_type" (SStr "css") st) g s1) as Htext.
  destruct (get_text _ _ g s1) as [[e | text] s2]; [discriminate |].
  destruct (Htext text s2 eq_refl) as (t & ->).
  intros H. inversion H; subst. fold key. exists t. simpl.
  split; [apply pget_pset_same |].
  split; [intros k Hk; now apply pget_pset_other |].
  split; [apply plength_pset |]. repeat split.
Qed.

(** ** Validation *)

Lemma str_in_string (a : scalar) (l : list string) :
  str_in a l = true <-> exists x, a = SStr x /\ In x l.
Proof.
  unfold str_in. rewrite existsb_exists. split.
  - intros (x & Hin & Hx). exists x. split; [| exact Hin].
    destruct a; simpl in Hx; try discriminate.
    apply String.eqb_eq in Hx. now subst.
  - intros (x & -> & Hin). exists x. split; [exact Hin |]. apply String.eqb_refl.
Qed.

(** The loop body of the validator accepts exactly the well-formed steps. *)
Lemma validate_step_well_formed (i : nat) (st : step) :
  validate_step i st = None <-> step_well_formed st.
Proof.
  unfold validate_step, step_well_formed. split.
  - destruct (sget "action" st) as [a |]; [| discriminate].
    destruct (str_in a valid_actions) eqn:Hin; [| discriminate].
    apply str_in_string in Hin. destruct Hin as (x & -> & Hin).
    intros H. exists x. split; [reflexivity |]. split; [exact Hin |].
    simpl in Hin.
    destruct Hin as [<- | [<- | [<- | [<- | [<- | [<- | []]]]]]]; simpl in H;
      (split; [intros Hx; try discriminate Hx
              | intros Hx; simpl in Hx;
                try (exfalso; intuition discriminate)]);
      destruct (smem _ st); auto; discriminate.
  - intros (a & Ha & Hin & Hurl & Hsel). rewrite Ha.
    simpl in Hin.
    destruct Hin as [<- | [<- | [<- | [<- | [<- | [<- | []]]]]]]; simpl;
      try (rewrite Hurl by reflexivity; reflexivity);
      try (rewrite Hsel by (simpl; auto); reflexivity);
      reflexivity.
Qed.

Lemma validate_steps_all (l : list step) :
  forall i, validate_steps i l = None <-> Forall step_well_formed l.
Proof.
  induction l as [|st l IH]; intros i; simpl.
  - split; auto.
  - destruct (validate_step i st) eqn:E.
    + split; [discriminate |]. intros H. inversion H; subst.
      apply (validate_step_well_formed i) in H2. congruence.
    + rewrite IH. apply validate_step_well_formed in E.
      split; [auto | intros H; now inversion H].
Qed.

(** X7. [validate_workflow] accepts a workflow exactly when it has the keys
    [name], [description] and [steps], [steps] is a list, and every step is
    well formed: a known action, [url] for navigate, [selector] for click,
    type, wait and get_text.  Nothing else is checked: not the values of
    these keys, and not [text] of a type step. *)
Theorem validate_workflow_accepts_exactly (wf : workflow) :
  validate_workflow wf = true <->
  smem "name" wf = true /\ smem "description" wf = true /\
  exists l, sget "steps" wf = Some (WSteps l) /\ Forall step_well_formed l.
Proof.
  unfold validate_workflow, validate_workflow_log. cbn [first_missing].
  destruct (smem "name" wf); [| split; [discriminate | intros (H & _); discriminate]].
  destruct (smem "description" wf);
    [| split; [discriminate | intros (_ & H & _); discriminate]].
  unfold dict_mem at 1.
  destruct (sget "steps" wf) as [[v | l] |].
  - split; [discriminate | intros (_ & _ & l & H & _); discriminate].
  - destruct (validate_steps 0 l) eqn:E.
    + split; [discriminate |]. intros (_ & _ & l' & H & Hall).
      inversion H; subst. apply (validate_steps_all l' 0) in Hall. congruence.
    + apply validate_steps_all in E. split; eauto.
  - split; [discriminate | intros (_ & _ & l & H & _); discriminate].
Qed.

Lemma validate_steps_first_bad (pre : list step) (st : step) (post : list step)
    (m : string) :
  Forall step_well_formed pre ->
  forall i, validate_step (i + List.length pre) st = Some m ->
            validate_steps i (pre ++ st :: post) = Some m.
Proof.
  induction 1 as [|x pre Hx Hpre IH]; intros i Hb; simpl.
  - rewrite Nat.add_0_r in Hb. now rewrite Hb.
  - apply (validate_step_well_formed i) in Hx. rewrite Hx.
    apply IH. rewrite <- Hb. f_equal. simpl. lia.
Qed.

(** X8. The validator reports the first step that it rejects: when the
    steps before [st] are well formed and [st] is rejected with message [m]
    at its index (counted from 0), the logged error is [m], whatever
    follows. *)
Theorem validation_reports_first_bad_step
    (wf : workflow) (pre : list step) (st : step) (post : list step) (m : string) :
  smem "name" wf = true ->
  smem "description" wf = true ->
  sget "steps" wf = Some (WSteps (pre ++ st :: post)) ->
  Forall step_well_formed pre ->
  validate_step (List.length pre) st = Some m ->
  validate_workflow_log wf = Some m /\ validate_workflow wf = false.
Proof.
  intros Hn Hd Hsteps Hpre Hbad.
  assert (Hlog : validate_workflow_log wf = Some m).
  { unfold validate_workflow_log. cbn [first_missing]. rewrite Hn, Hd.
    unfold dict_mem. rewrite Hsteps.
    apply (validate_steps_first_bad pre st post m Hpre 0%nat). exact Hbad. }
  split; [exact Hlog |]. unfold validate_workflow. now rewrite Hlog.
Qed.

Lemma validate_workflow_steps_list (wf : workflow) :
  validate_workflow wf = true -> exists l, sget "steps" wf = Some (WSteps l).
Proof.
  unfold validate_workflow, validate_workflow_log. cbn [first_missing].
  destruct (smem "name" wf); [| discriminate].
  destruct (smem "description" wf); [| discriminate].
  unfold dict_mem at 1.
  destruct (sget "steps" wf) as [[v | l] |]; try discriminate. eauto.
Qed.

(** X9. For a workflow that passes validation, [execute_workflow] sets up
    its results whatever the state, with [total_steps] the number of steps,
    and it can raise only an error of closing the browser. *)
Theorem validated_workflow_raises_only_on_close (wf : workflow) :
  validate_workflow wf = true ->
  exists l,
    sget "steps" wf = Some (WSteps l) /\
    forall s,
      (exists r0 s0,
         initial_results wf s = (inr r0, s0) /\ total_steps r0 = List.length l) /\
      (forall e s', execute_workflow wf s = (inl e, s') ->
         exists sf, release sf = (inl e, s')).
Proof.
  intros Hv. apply validate_workflow_steps_list in Hv.
  destruct Hv as (l & Hsteps). exists l. split; [exact Hsteps |].
  intros s.
  assert (Hinit : exists r0 s0,
            initial_results wf s = (inr r0, s0) /\ total_steps r0 = List.length l).
  { unfold initial_results, bind, now. destruct (clock (s_ext s)) as [t e].
    unfold steps_of. rewrite Hsteps. simpl. unfold ret.
    eexists _, _. split; reflexivity. }
  split; [exact Hinit |].
  intros e s' Hraise. destruct (execute_workflow_raises _ _ _ _ Hraise) as [H | H]; auto.
  destruct Hinit as (r0 & s0 & Hi & _). congruence.
Qed.

(** X10. Validation tests that a required key is present, execution that its
    value is not empty: a navigate step whose [url], or a click, wait or
    get_text step whose [selector], is present but falsy (empty string,
    [None], [0], [False]) passes the validator's loop and then raises a
    [ValueError] at execution, before any engine call. *)
Theorem present_but_empty_parameter_passes_validation
    (st : step) (a key : string) (v : scalar) (i : nat)
    (r : run_result) (s : state) :
  In (a, key)
    [("navigate", "url"); ("click", "selector"); ("wait", "selector");
     ("get_text", "selector")] ->
  sget "action" st = Some (SStr a) ->
  sget key st = Some v ->
  truthy v = false ->
  validate_step i st = None /\
  exists msg, _execute_step st r s = (inl (ValueError msg), s).
Proof.
  intros Hin Hact Hkey Hv. simpl in Hin.
  destruct Hin as [H | [H | [H | [H | []]]]]; inversion H; subst a key; clear H.
  all: split;
    [ unfold validate_step, dict_mem; rewrite Hact; simpl; now rewrite Hkey
    | step_branch Hact; unfold step_get at 1; rewrite Hkey; cbn [or_none];
      rewrite Hv; eexists; reflexivity ].
Qed.

(** ** Names and time strings of scheduled jobs *)

(** The state that [schedule_workflow] leaves when the [schedule] library
    accepts the time string; the next run and the clock do not depend on the
    repeat flag. *)
Lemma schedule_workflow_state
    (wf : workflow) (t : string) (job_name : option string) (s : state) :
  at_check t = None ->
  exists (nr : Z) (e : Ext),
    forall rep : bool,
      schedule_workflow wf t job_name rep s
      = (inr (name_for "workflow_" job_name s),
         with_jobs
           (sset (name_for "workflow_" job_name s)
              {| ji_workflow := wf; ji_schedule_time := Some t;
                 ji_interval_minutes := None; ji_repeat := rep;
                 ji_created_at := isoformat (fst (clock (s_ext s)));
                 ji_last_run := None; ji_next_run := NextRunAt nr;
                 ji_last_result := None; ji_last_error := None |}
              (scheduled_jobs s))
           (with_lib_jobs
              (lib_jobs s ++
                 [{| lj_trigger := DailyAt t;
                     lj_tag := name_for "workflow_" job_name s;
                     lj_workflow := wf |}])
              (with_ext e s))).
Proof.
  intros Hat.
  destruct (clock (s_ext s)) as [created e1] eqn:Ec.
  destruct (get_next_run_time_returns t
              (with_ext e1
                 (with_lib_jobs
                    (lib_jobs s ++
                       [{| lj_trigger := DailyAt t;
                           lj_tag := name_for "workflow_" job_name s;
                           lj_workflow := wf |}]) s)))
    as (nr & e2 & Hnr & _).
  exists nr, e2. intros rep. unfold schedule_workflow.
  unfold bind at 1. rewrite default_name_returns.
  unfold bind at 1.
  assert (Hreg : (if rep then register_daily wf t (name_for "workflow_" job_name s)
                  else register_daily wf t (name_for "workflow_" job_name s)) s
                 = register_daily wf t (name_for "workflow_" job_name s) s)
    by (destruct rep; reflexivity).
  rewrite Hreg. unfold register_daily. rewrite Hat. unfold modify.
  unfold bind at 1. unfold now at 1. simpl s_ext. rewrite Ec.
  unfold bind at 1. rewrite Hnr. reflexivity.
Qed.

(** X11. A job scheduled without a name is called ["workflow_N"] with [N]
    one more than the number of registered jobs.  When that name is taken
    already (as it is after a removal), the new job replaces the job of that
    name: the number of jobs stays the same and the entry is the new
    one. *)
Theorem unnamed_job_can_replace_existing
    (wf : workflow) (t : string) (rep : bool) (s : state) :
  at_check t = None ->
  smem ("workflow_" ++ nat_to_string (List.length (scheduled_jobs s) + 1))
    (scheduled_jobs s) = true ->
  exists (s' : state) (j : job_info),
    schedule_workflow wf t None rep s
    = (inr ("workflow_" ++ nat_to_string (List.length (scheduled_jobs s) + 1)), s') /\
    dict_keys (scheduled_jobs s') = dict_keys (scheduled_jobs s) /\
    sget ("workflow_" ++ nat_to_string (List.length (scheduled_jobs s) + 1))
      (scheduled_jobs s') = Some j /\
    ji_workflow j = wf /\ ji_schedule_time j = Some t /\
    ji_last_run j = None /\ ji_last_result j = None.
Proof.
  intros Hat Hmem.
  destruct (schedule_workflow_state wf t None s Hat) as (nr & e & Hrun).
  rewrite (Hrun rep). unfold name_for. cbn [falsy_name].
  eexists _, _. split; [reflexivity |].
  cbn [scheduled_jobs with_jobs].
  split; [now apply dict_keys_sset_present |].
  split; [apply sget_sset_same |]. repeat split.
Qed.

(** X12. Scheduling a daily job fails exactly when the [schedule] library
    rejects the time string; it then raises the library's error and leaves
    the state as it is: no entry, no library job, no clock reading. *)
Theorem daily_scheduling_fails_exactly_on_rejected_time
    (wf : workflow) (t : string) (job_name : option string) (rep : bool) (s : state) :
  (at_check t = None ->
   exists name s', schedule_workflow wf t job_name rep s = (inr name, s')) /\
  (forall e, at_check t = Some e ->
   schedule_workflow wf t job_name rep s = (inl e, s)).
Proof.
  split.
  - intros Hat. destruct (schedule_workflow_state wf t job_name s Hat) as (nr & e & Hrun).
    rewrite (Hrun rep). eauto.
  - intros e Hat. now apply schedule_workflow_rejected.
Qed.

Lemma schedule_view_sset (k : string) (j1 j2 : job_info) (jobs : registry) :
  ji_next_run j1 = ji_next_run j2 ->
  ji_schedule_time j1 = ji_schedule_time j2 ->
  schedule_view (sset k j1 jobs) = schedule_view (sset k j2 jobs).
Proof.
  intros H1 H2. unfold schedule_view.
  induction jobs as [|[k0 j0] jobs IH]; simpl.
  - now rewrite H1, H2.
  - destruct (String.eqb k k0); simpl; [now rewrite H1, H2 | now rewrite IH].
Qed.

(** X13. The repeat flag reaches nothing but the stored flag: with
    [repeat=True] and with [repeat=False], [schedule_workflow] has the same
    outcome, registers the same daily job with the [schedule] library (both
    branches call [every().day.at(...)]), reads the clock in the same way and
    stores the same next run. *)
Theorem repeat_flag_is_only_recorded
    (wf : workflow) (t : string) (job_name : option string) (s : state) :
  fst (schedule_workflow wf t job_name true s)
  = fst (schedule_workflow wf t job_name false s) /\
  lib_jobs (snd (schedule_workflow wf t job_name true s))
  = lib_jobs (snd (schedule_workflow wf t job_name false s)) /\
  s_ext (snd (schedule_workflow wf t job_name true s))
  = s_ext (snd (schedule_workflow wf t job_name false s)) /\
  schedule_view (scheduled_jobs (snd (schedule_workflow wf t job_name true s)))
  = schedule_view (scheduled_jobs (snd (schedule_workflow wf t job_name false s))).
Proof.
  destruct (at_check t) as [e |] eqn:Hat.
  - rewrite !(schedule_workflow_rejected wf t job_name _ s e Hat). auto.
  - destruct (schedule_workflow_state wf t job_name s Hat) as (nr & e & Hrun).
    rewrite (Hrun true), (Hrun false). cbn [fst snd lib_jobs s_ext scheduled_jobs
      with_jobs with_lib_jobs with_ext].
    repeat split. now apply schedule_view_sset.
Qed.

(** ** Removing a registered job *)

Lemma sget_sdel_same (V : Type) (k : string) (d : list (string * V)) :
  NoDup (dict_keys d) -> sget k (sdel k d) = None.
Proof.
  induction d as [|[k0 v0] d IH]; simpl; auto.
  intros Hnd. inversion Hnd; subst.
  destruct (String.eqb k k0) eqn:E.
  - apply String.eqb_eq in E. subst k0.
    apply smem_false_sget. now apply smem_false_not_in.
  - simpl. rewrite E. auto.
Qed.

Lemma sget_sdel_other (V : Type) (k k' : string) (d : list (string * V)) :
  k <> k' -> sget k' (sdel k d) = sget k' d.
Proof.
  intros Hne. induction d as [|[k0 v0] d IH]; simpl; auto.
  destruct (String.eqb k k0) eqn:E.
  - apply String.eqb_eq in E. subst k0.
    destruct (String.eqb k' k) eqn:E'; auto.
    apply String.eqb_eq in E'. congruence.
  - simpl. now rewrite IH.
Qed.

Lemma length_sdel (V : Type) (k : string) (d : list (string * V)) :
  smem k d = true -> S (List.length (sdel k d)) = List.length d.
Proof.
  unfold dict_mem. induction d as [|[k0 v0] d IH]; simpl; [discriminate |].
  destruct (String.eqb k k0); simpl; auto.
Qed.

Lemma clear_tag_none_left (name : string) (l : list lib_job) :
  Forall (fun lj => lj_tag lj <> name) (clear_tag name l).
Proof.
  unfold clear_tag. apply Forall_forall. intros lj Hin.
  apply filter_In in Hin. destruct Hin as [_ H].
  apply negb_true_iff in H. now apply String.eqb_neq.
Qed.

(** X14. Removing a registered job deletes its entry and every job of the
    [schedule] library tagged with its name: afterwards the name is not
    registered, there is one job less, and the other entries are as
    before. *)
Theorem remove_job_deletes_entry_and_triggers
    (name : string) (s : state) (j : job_info) :
  reachable s ->
  sget name (scheduled_jobs s) = Some j ->
  exists s' : state,
    remove_job name s = (inr true, s') /\
    sget name (scheduled_jobs s') = None /\
    S (List.length (scheduled_jobs s')) = List.length (scheduled_jobs s) /\
    (forall other, other <> name ->
       sget other (scheduled_jobs s') = sget other (scheduled_jobs s)) /\
    lib_jobs s' = clear_tag name (lib_jobs s) /\
    Forall (fun lj => lj_tag lj <> name) (lib_jobs s').
Proof.
  intros Hreach Hj.
  destruct (reachable_sched_ok s Hreach) as [_ Hnd].
  pose proof (sget_some_smem _ _ _ _ Hj) as Hmem.
  unfold remove_job, try_catch, bind, modify, get_state.
  cbn [fst snd scheduled_jobs with_lib_jobs]. rewrite Hmem.
  eexists. split; [reflexivity |].
  cbn [scheduled_jobs lib_jobs with_jobs with_lib_jobs].
  split; [now apply sget_sdel_same |].
  split; [now apply length_sdel |].
  split; [intros other Hne; apply sget_sdel_other; congruence |].
  split; [reflexivity | apply clear_tag_none_left].
Qed.

(** ** The next run *)

(** X15. For a time string that reads as a time of day in range, the next
    run lies after the current time and at most one day after it. *)
Theorem next_run_is_within_a_day (t : string) (s : state) (h m : Z) :
  parse_hour_minute t = Some (h, m) ->
  hm_in_range h m = true ->
  exists (nr : Z) (s' : state),
    _get_next_run_time t s = (inr nr, s') /\
    fst (clock (s_ext s)) < nr <= fst (clock (s_ext s)) + DAY.
Proof.
  intros Hp Hr.
  destruct (get_next_run_time_returns t s) as (nr & e & Hrun & Hnr).
  specialize (Hnr h m Hp Hr). simpl in Hnr.
  exists nr, (with_ext e s). split; [exact Hrun |].
  pose proof (clock_time_bounds h m Hr) as Hb.
  pose proof (time_of_bounds (fst (clock (s_ext s)))) as Ht.
  pose proof (date_time_split (fst (clock (s_ext s)))) as Hn.
  rewrite dt_replace_leb in Hnr. unfold dt_replace in Hnr.
  destruct (clock_time h m <=? time_of (fst (clock (s_ext s)))) eqn:E.
  - apply Z.leb_le in E. lia.
  - apply Z.leb_gt in E. lia.
Qed.

Lemma split_colon_length (s cur : string) :
  List.length (split_colon cur s) = S (colons s).
Proof.
  revert cur. induction s as [|c s IH]; intros cur; simpl; auto.
  destruct (c =? ":")%char; simpl; now rewrite IH.
Qed.

(** X16. A time string that does not have exactly one colon, such as
    ["09:00:30"], is not an error for [_get_next_run_time]: the exception of
    the unpacking is swallowed and the next run is one day after the current
    time, whatever the string says. *)
Theorem next_run_of_unreadable_time_is_a_day_ahead (t : string) (s : state) :
  colons t <> 1%nat ->
  _get_next_run_time t s
  = (inr (fst (clock (s_ext s)) + DAY), with_ext (snd (clock (s_ext s))) s).
Proof.
  intros Hc.
  assert (Hp : parse_hour_minute t = None).
  { unfold parse_hour_minute.
    pose proof (split_colon_length t "") as Hl.
    destruct (split_colon "" t) as [|a [|b [|c l]]]; auto.
    simpl in Hl. congruence. }
  unfold _get_next_run_time, try_catch, bind, lift. rewrite Hp. simpl.
  unfold now. destruct (clock (s_ext s)). reflexivity.
Qed.

(** ** Dispatch *)

Lemma stable_update_job_lib (name : string) (u : job_info -> job_info) :
  stable lib_jobs (update_job name u).
Proof. intros s. unfold update_job, modify. simpl. destruct (sget name _); reflexivity. Qed.

(** X17. A dispatched run never raises, whatever the workflow and whether
    or not the job is still registered; it never touches the jobs of the
    [schedule] library, and for a name that is not registered it leaves the
    registry as it is. *)
Theorem dispatch_never_raises (wf : workflow) (name : string) (s : state) :
  fst (_execute_scheduled_workflow wf name s) = inr tt /\
  lib_jobs (snd (_execute_scheduled_workflow wf name s)) = lib_jobs s /\
  (smem name (scheduled_jobs s) = false ->
   scheduled_jobs (snd (_execute_scheduled_workflow wf name s)) = scheduled_jobs s).
Proof.
  split; [| split].
  - unfold _execute_scheduled_workflow, try_catch.
    match goal with |- context [match ?m s with _ => _ end] => destruct (m s) as [[e | []] s1] end.
    + reflexivity.
    + reflexivity.
  - assert (H : stable lib_jobs (_execute_scheduled_workflow wf name)).
    { unfold _execute_scheduled_workflow.
      apply stable_try_catch; [| intros; apply stable_update_job_lib].
      apply stable_bind; [apply stable_execute_workflow; auto with stable |].
      intros R. apply stable_bind; [auto with stable |]. intros s0.
      apply stable_bind.
      { apply stable_if; [| auto with stable].
        apply stable_bind; [auto with stable | intros; apply stable_update_job_lib]. }
      intros _. apply stable_bind; [auto with stable |]. intros t.
      apply stable_bind; [apply stable_save_results; auto with stable |].
      intros; auto with stable. }
    apply H.
  - intros Hmem.
    assert (Hupd : forall u,
              keeps (fun s' => scheduled_jobs s' = scheduled_jobs s) (update_job name u)).
    { intros u. apply keeps_modify. intros s1 H1.
      rewrite H1, (smem_false_sget _ _ _ Hmem). exact H1. }
    assert (H : keeps (fun s' => scheduled_jobs s' = scheduled_jobs s)
                  (_execute_scheduled_workflow wf name)).
    { unfold _execute_scheduled_workflow.
      apply keeps_try_catch; [| intros; apply Hupd].
      apply keeps_bind.
      { apply (stable_keeps scheduled_jobs (fun x => x = scheduled_jobs s)).
        apply stable_execute_workflow; auto with stable. }
      intros R. apply keeps_bind; [apply keeps_get_state |]. intros s0.
      apply keeps_bind.
      { apply keeps_if; [| apply keeps_ret].
        apply keeps_bind; [apply keeps_now; auto | intros; apply Hupd]. }
      intros _. apply keeps_bind; [apply keeps_now; auto |]. intros t.
      apply keeps_bind; [| intros; apply keeps_ret].
      apply (stable_keeps scheduled_jobs (fun x => x = scheduled_jobs s)).
      apply stable_save_results; auto with stable. }
    apply H. reflexivity.
Qed.

(** ** Loading a schedule *)

(** X18. When the schedule file cannot be read, [load_schedule] raises the
    error of the read before it clears anything: the registry and the jobs
    of the [schedule] library are as before. *)
Theorem failed_read_keeps_the_schedule
    (path : string) (s : state) (e : exn) (ext' : Ext) :
  fs_read_schedule path (s_ext s) = (inl e, ext') ->
  load_schedule path s = (inl e, with_ext ext' s) /\
  scheduled_jobs (snd (load_schedule path s)) = scheduled_jobs s /\
  lib_jobs (snd (load_schedule path s)) = lib_jobs s.
Proof.
  intros Hread.
  assert (H : load_schedule path s = (inl e, with_ext ext' s)).
  { unfold load_schedule, bind, read_schedule. now rewrite Hread. }
  rewrite H. auto.
Qed.

(** Loading a document whose entries are in order (names not empty and
    distinct, triggers as the scheduling operations write them: a time string
    the library accepts, or an interval the library registers) into a state
    that holds none of its names registers every entry again, in order. *)
Lemma load_jobs_registers_all (data : registry) :
  forall s : state,
    Forall job_ok data ->
    NoDup (dict_keys data) ->
    (forall k, In k (dict_keys data) -> smem k (scheduled_jobs s) = false) ->
    exists s' : state,
      load_jobs data s = (inr (Some tt), s') /\
      dict_keys (scheduled_jobs s') = (dict_keys (scheduled_jobs s) ++ dict_keys data)%list /\
      map lj_tag (lib_jobs s') = (map lj_tag (lib_jobs s) ++ dict_keys data)%list.
Proof.
  induction data as [|[k j] data IH]; intros s Hall Hnd Hfresh.
  - exists s. simpl. rewrite !app_nil_r. auto.
  - inversion Hall as [| ? ? [Hk Hj] Hall']; subst. simpl in Hk, Hj.
    simpl in Hnd. inversion Hnd as [| ? ? Hnotin Hnd']; subst.
    assert (Hkfresh : smem k (scheduled_jobs s) = false)
      by (apply Hfresh; simpl; auto).
    assert (Hfirst : exists (s1 : state) (j1 : job_info),
              load_job k j s = (inr (Some k), s1) /\
              scheduled_jobs s1 = sset k j1 (scheduled_jobs s) /\
              map lj_tag (lib_jobs s1) = (map lj_tag (lib_jobs s) ++ [k])%list).
    { unfold load_job. destruct (ji_interval_minutes j) as [n |] eqn:En.
      - destruct Hj as (_ & _ & Hn).
        destruct (schedule_interval_returns (ji_workflow j) n (Some k) s Hn)
          as (s1 & c & nr & Hrun & Hjobs & Hlib).
        rewrite (name_for_given _ _ _ Hk) in *.
        eexists s1, _. split; [exact Hrun |]. split; [exact Hjobs |].
        rewrite Hlib, map_app. reflexivity.
      - destruct Hj as (t & Ht & Hat). rewrite Ht.
        destruct (schedule_workflow_accepted (ji_workflow j) t (Some k) (ji_repeat j) s Hat)
          as (s1 & nr & Hrun & Hjobs & Hlib & _).
        rewrite (name_for_given _ _ _ Hk) in *.
        eexists s1, _. split; [unfold bind; now rewrite Hrun |].
        split; [exact Hjobs |].
        rewrite Hlib, map_app. reflexivity. }
    destruct Hfirst as (s1 & j1 & Hrun & Hjobs & Hlib).
    destruct (IH s1 Hall' Hnd') as (s' & Hload & Hkeys & Htags).
    { intros k' Hin. rewrite Hjobs, smem_sset_other.
      - apply Hfresh. simpl. auto.
      - intros ->. contradiction. }
    exists s'. split.
    { cbn [load_jobs]. unfold bind at 1. rewrite Hrun. exact Hload. }
    split.
    + rewrite Hkeys, Hjobs, dict_keys_sset_absent by exact Hkfresh.
      simpl. now rewrite <- app_assoc.
    + rewrite Htags, Hlib. simpl. now rewrite <- app_assoc.
Qed.

Lemma load_jobs_app (pre rest : registry) (s : state) :
  load_jobs (pre ++ rest)%list s
  = match load_jobs pre s with
    | (inr (Some _), s1) => load_jobs rest s1
    | (inr None, s1) => (inr None, s1)
    | (inl e, s1) => (inl e, s1)
    end.
Proof.
  revert s. induction pre as [|[k j] pre IH]; intros s; simpl; auto.
  unfold bind.
  destruct (load_job k j s) as [[e | [x |]] s1]; auto.
Qed.

(** X19. Loading is not all or nothing.  When the file holds entries in
    order (names not empty and distinct, each with a time string the
    [schedule] library accepts or an interval it registers) followed by a
    daily entry whose time string the library rejects, [load_schedule]
    raises the library's error after it has cleared
    the schedule and registered the entries before that one: the registry
    then holds exactly these, the jobs that were registered before the load
    are gone, and the entries after the rejected one are not loaded. *)
Theorem load_stops_at_the_rejected_entry
    (path : string) (s : state) (ext' : Ext)
    (pre : registry) (k : string) (bad : job_info) (post : registry)
    (t : string) (e : exn) :
  fs_read_schedule path (s_ext s) = (inr (pre ++ (k, bad) :: post)%list, ext') ->
  Forall job_ok pre ->
  NoDup (dict_keys pre) ->
  ji_interval_minutes bad = None ->
  ji_schedule_time bad = Some t ->
  at_check t = Some e ->
  exists s' : state,
    load_schedule path s = (inl e, s') /\
    dict_keys (scheduled_jobs s') = dict_keys pre /\
    map lj_tag (lib_jobs s') = dict_keys pre.
Proof.
  intros Hread Hall Hnd Hint Htime Hat.
  unfold load_schedule, bind, read_schedule. rewrite Hread. unfold modify.
  rewrite load_jobs_app.
  destruct (load_jobs_registers_all pre
              (with_jobs [] (with_lib_jobs [] (with_ext ext' s))) Hall Hnd)
    as (s1 & Hload & Hkeys & Htags).
  { intros k' _. reflexivity. }
  rewrite Hload. cbn [load_jobs]. unfold load_job. rewrite Hint, Htime.
  unfold bind. rewrite (schedule_workflow_rejected _ _ _ _ _ _ Hat).
  exists s1. split; [reflexivity |]. split; [exact Hkeys | exact Htags].
Qed.

(** X20. A load that finds entries in order (names not empty and distinct,
    each with a time string the [schedule] library accepts or an interval it
    registers) returns and replaces the schedule: the registry afterwards
    holds the names of the file, in the order of the file, and the
    [schedule] library holds one job for each, tagged with the name; nothing
    of the schedule before the load is left. *)
Theorem load_replaces_the_schedule
    (path : string) (s : state) (ext' : Ext) (doc : registry) :
  fs_read_schedule path (s_ext s) = (inr doc, ext') ->
  Forall job_ok doc ->
  NoDup (dict_keys doc) ->
  exists s' : state,
    load_schedule path s = (inr (Some tt), s') /\
    dict_keys (scheduled_jobs s') = dict_keys doc /\
    map lj_tag (lib_jobs s') = dict_keys doc.
Proof.
  intros Hread Hall Hnd.
  unfold load_schedule, bind, read_schedule. rewrite Hread. unfold modify.
  destruct (load_jobs_registers_all doc
              (with_jobs [] (with_lib_jobs [] (with_ext ext' s))) Hall Hnd)
    as (s1 & Hload & Hkeys & Htags).
  { intros k' _. reflexivity. }
  exists s1. split; [exact Hload |]. split; [exact Hkeys | exact Htags].
Qed.

(** X26. An interval for which the registration with the [schedule]
    library does not return stops a load for good: when the file holds
    entries in order followed by an entry with such an interval,
    [load_schedule] does not return (and raises nothing); the schedule from
    before the load is gone, the entries before that one are registered, and
    no later entry is loaded. *)
Theorem load_is_stuck_at_unregistered_interval
    (path : string) (s : state) (ext' : Ext)
    (pre : registry) (k : string) (bad : job_info) (post : registry) (n : Z) :
  fs_read_schedule path (s_ext s) = (inr (pre ++ (k, bad) :: post)%list, ext') ->
  Forall job_ok pre ->
  NoDup (dict_keys pre) ->
  ji_interval_minutes bad = Some n ->
  every_check n = EveryHangs ->
  exists s' : state,
    load_schedule path s = (inr None, s') /\
    dict_keys (scheduled_jobs s') = dict_keys pre /\
    map lj_tag (lib_jobs s') = dict_keys pre.
Proof.
  intros Hread Hall Hnd Hint Hn.
  unfold load_schedule, bind, read_schedule. rewrite Hread. unfold modify.
  rewrite load_jobs_app.
  destruct (load_jobs_registers_all pre
              (with_jobs [] (with_lib_jobs [] (with_ext ext' s))) Hall Hnd)
    as (s1 & Hload & Hkeys & Htags).
  { intros k' _. reflexivity. }
  rewrite Hload. cbn [load_jobs]. unfold load_job. rewrite Hint.
  unfold bind. rewrite schedule_interval_not_registered, Hn.
  exists s1. split; [reflexivity |]. split; [exact Hkeys | exact Htags].
Qed.

(** ** Every registered job has a trigger *)

Lemma smem_sset_cases (V : Type) (k n : string) (v : V) (d : list (string * V)) :
  smem n (sset k v d) = true -> n = k \/ smem n d = true.
Proof.
  destruct (String.eqb k n) eqn:E.
  - apply String.eqb_eq in E. auto.
  - apply String.eqb_neq in E. rewrite smem_sset_other by exact E. auto.
Qed.

Lemma has_trigger_add (s s' : state) (name : string) (j : job_info) (lj : lib_job) :
  has_trigger s ->
  scheduled_jobs s' = sset name j (scheduled_jobs s) ->
  lib_jobs s' = (lib_jobs s ++ [lj])%list ->
  lj_tag lj = name ->
  has_trigger s'.
Proof.
  intros Hs Hjobs Hlib Htag n Hn. rewrite Hjobs in Hn. rewrite Hlib.
  destruct (smem_sset_cases _ _ _ _ _ Hn) as [-> | Hold].
  - exists lj. split; [apply in_or_app; simpl; auto | exact Htag].
  - destruct (Hs n Hold) as (l0 & Hin & Ht). exists l0.
    split; [apply in_or_app; auto | exact Ht].
Qed.

Lemma keeps_trigger_schedule wf t name rep :
  keeps has_trigger (schedule_workflow wf t name rep).
Proof.
  intros s Hs. destruct (at_check t) as [e |] eqn:Hat.
  - now rewrite (schedule_workflow_rejected wf t name rep s e Hat).
  - destruct (schedule_workflow_accepted wf t name rep s Hat)
      as (s' & nr & Hrun & Hjobs & Hlib & _).
    rewrite Hrun. simpl. eapply has_trigger_add; eauto.
Qed.

Lemma keeps_trigger_interval wf n name :
  keeps has_trigger (schedule_interval_workflow wf n name).
Proof.
  intros s Hs. destruct (every_check n) eqn:Hn.
  - destruct (schedule_interval_returns wf n name s Hn)
      as (s' & c & nr & Hrun & Hjobs & Hlib).
    rewrite Hrun. simpl. eapply has_trigger_add; eauto.
  - rewrite schedule_interval_not_registered, Hn. exact Hs.
  - rewrite schedule_interval_not_registered, Hn. exact Hs.
Qed.

Lemma has_trigger_same (s s' : state) :
  has_trigger s ->
  lib_jobs s' = lib_jobs s ->
  (forall n, smem n (scheduled_jobs s') = true -> smem n (scheduled_jobs s) = true) ->
  has_trigger s'.
Proof. intros Hs Hlib Hjobs n Hn. rewrite Hlib. auto. Qed.

Lemma keeps_trigger_update name (u : job_info -> job_info) :
  keeps has_trigger (update_job name u).
Proof.
  apply keeps_modify. intros s Hs.
  destruct (sget name (scheduled_jobs s)) as [j |] eqn:E; [| exact Hs].
  apply (has_trigger_same s); auto.
  intros n Hn. simpl in Hn.
  destruct (smem_sset_cases _ _ _ _ _ Hn) as [-> | H]; auto.
  eapply sget_some_smem; eauto.
Qed.

Lemma stable_keeps_trigger {A} (m : M A) :
  stable scheduled_jobs m -> stable lib_jobs m -> keeps has_trigger m.
Proof.
  intros H1 H2 s Hs. apply (has_trigger_same s); auto.
  intros n. now rewrite H1.
Qed.

Lemma keeps_trigger_dispatch wf name :
  keeps has_trigger (_execute_scheduled_workflow wf name).
Proof.
  unfold _execute_scheduled_workflow.
  apply keeps_try_catch; [| intros; apply keeps_trigger_update].
  apply keeps_bind.
  { apply stable_keeps_trigger; apply stable_execute_workflow; auto with stable. }
  intros R. apply keeps_bind; [apply keeps_get_state |]. intros s0.
  apply keeps_bind.
  { apply keeps_if; [| apply keeps_ret].
    apply keeps_bind; [apply keeps_now; auto | intros; apply keeps_trigger_update]. }
  intros _. apply keeps_bind; [apply keeps_now; auto |]. intros t.
  apply keeps_bind; [| intros; apply keeps_ret].
  apply stable_keeps_trigger; apply stable_save_results; auto with stable.
Qed.

Lemma keeps_trigger_load_jobs (data : registry) : keeps has_trigger (load_jobs data).
Proof.
  induction data as [|[k info] data IH]; simpl.
  - apply keeps_ret.
  - apply keeps_bind; [| intros [u |]; [exact IH | apply keeps_ret]].
    unfold load_job. destruct (ji_interval_minutes info).
    + apply keeps_trigger_interval.
    + destruct (ji_schedule_time info).
      * apply keeps_bind; [apply keeps_trigger_schedule | intros; apply keeps_ret].
      * apply keeps_raise.
Qed.

Lemma stable_save_schedule_lib filename : stable lib_jobs (save_schedule filename).
Proof. unfold save_schedule. stable_steps. Qed.

Lemma remove_job_state (name : string) (s : state) :
  snd (remove_job name s)
  = if smem name (scheduled_jobs s)
    then with_jobs (sdel name (scheduled_jobs s))
           (with_lib_jobs (clear_tag name (lib_jobs s)) s)
    else with_lib_jobs (clear_tag name (lib_jobs s)) s.
Proof.
  unfold remove_job, try_catch, bind, modify, get_state.
  cbn [fst snd scheduled_jobs with_lib_jobs].
  destruct (smem name (scheduled_jobs s)); reflexivity.
Qed.

(** X21. In every state the scheduler can reach, every registered job has
    at least one job of the [schedule] library tagged with its name: no
    operation leaves an entry in the registry that will never fire. *)
Theorem every_registered_job_has_a_trigger (s : state) :
  reachable s -> has_trigger s.
Proof.
  induction 1 as [s Hempty | s wf t name rep Hr IH | s wf n name Hr IH
                 | s wf name Hr IH | s wf Hr IH | s name Hr IH
                 | s filename Hr IH | s path Hr IH].
  - intros n Hn. rewrite Hempty in Hn. discriminate.
  - now apply keeps_trigger_schedule.
  - now apply keeps_trigger_interval.
  - now apply keeps_trigger_dispatch.
  - apply (stable_keeps_trigger (execute_workflow wf));
      [apply stable_execute_workflow | apply stable_execute_workflow |]; auto with stable.
  - destruct (reachable_sched_ok s Hr) as [_ Hnd].
    intros n Hn. rewrite remove_job_state in *.
    assert (Hne : n <> name /\ smem n (scheduled_jobs s) = true).
    { destruct (smem name (scheduled_jobs s)) eqn:Hmem;
        cbn [scheduled_jobs with_lib_jobs with_jobs] in Hn.
      - assert (Hx : n <> name).
        { intros ->. unfold dict_mem in Hn.
          rewrite sget_sdel_same in Hn by exact Hnd. discriminate. }
        split; [exact Hx |]. unfold dict_mem in *.
        rewrite sget_sdel_other in Hn by congruence. exact Hn.
      - split; [intros -> | exact Hn]. congruence. }
    destruct Hne as [Hne Hold].
    destruct (IH n Hold) as (lj & Hin & Htag).
    exists lj. split; [| exact Htag].
    assert (Hin' : In lj (clear_tag name (lib_jobs s))).
    { unfold clear_tag. apply filter_In. split; [exact Hin |].
      apply negb_true_iff. apply String.eqb_neq. congruence. }
    destruct (smem name (scheduled_jobs s)); exact Hin'.
  - apply (stable_keeps_trigger (save_schedule filename));
      [apply stable_save_schedule | apply stable_save_schedule_lib | exact IH].
  - unfold load_schedule.
    assert (Hk : keeps has_trigger
              (bind (read_schedule path) (fun data =>
               bind (modify (with_lib_jobs [])) (fun _ =>
               bind (modify (with_jobs [])) (fun _ => load_jobs data))))).
    { apply keeps_bind; [apply keeps_read_schedule; auto |].
      intros data. intros s0 _. unfold bind, modify.
      apply keeps_trigger_load_jobs. intros n Hn. discriminate. }
    now apply Hk.
Qed.

(** ** Selector types in the engine *)

(** X22. With Selenium, [wait_for_element] has no [else] branch: for a
    selector type other than ["css"], ["xpath"] and ["id"] it makes no
    library call at all and returns at once, as if the element were
    present. *)
Theorem selenium_wait_skips_unknown_selector_type
    (sel timeout ty : scalar) (g : engine) (s : state) :
  is_playwright g = false ->
  str_in ty ["css"; "xpath"; "id"] = false ->
  wait_for_element sel timeout ty g s
  = (inr tt, with_calls (s_calls s ++ [EWait sel timeout ty]) s).
Proof.
  intros Hg Hty. unfold str_in in Hty. cbn [existsb] in Hty.
  repeat (apply orb_false_elim in Hty; destruct Hty as [?H Hty]).
  unfold wait_for_element, bind, record_call, modify. rewrite Hg.
  repeat match goal with Hx : is_str _ _ = false |- _ => rewrite Hx; clear Hx end.
  reflexivity.
Qed.

(** X23. With Playwright the selector type is never used: whatever
    selector types are given, clicking, typing, waiting and reading a text
    have the same outcome and the same effect on the outside world. *)
Theorem playwright_ignores_selector_type
    (sel text timeout ty ty' : scalar) (g : engine) (s : state) :
  is_playwright g = true ->
  (fst (click_element sel ty g s) = fst (click_element sel ty' g s) /\
   s_ext (snd (click_element sel ty g s)) = s_ext (snd (click_element sel ty' g s))) /\
  (fst (type_text sel text ty g s) = fst (type_text sel text ty' g s) /\
   s_ext (snd (type_text sel text ty g s)) = s_ext (snd (type_text sel text ty' g s))) /\
  (fst (wait_for_element sel timeout ty g s) = fst (wait_for_element sel timeout ty' g s) /\
   s_ext (snd (wait_for_element sel timeout ty g s))
   = s_ext (snd (wait_for_element sel timeout ty' g s))) /\
  (fst (get_text sel ty g s) = fst (get_text sel ty' g s) /\
   s_ext (snd (get_text sel ty g s)) = s_ext (snd (get_text sel ty' g s))).
Proof.
  intros Hg.
  unfold click_element, type_text, wait_for_element, get_text.
  unfold bind, record_call, modify, on_handle, call, lift. rewrite Hg.
  cbn [fst snd s_ext with_calls].
  destruct (playwright_page g); cbn [ret raise fst snd s_ext with_calls].
  - repeat split.
    all: try (destruct (lib _ (s_ext s)) as [[e | v] e1]; reflexivity).
    all: try (destruct (py_mul timeout 1000) as [e | ms]; cbn;
              [reflexivity | destruct (lib _ (s_ext s)) as [[e | v] e1]; reflexivity]).
    all: destruct (lib (page_text_content sel) (s_ext s)) as [[e | v] e1]; cbn;
      try reflexivity; destruct (py_slice_check v); reflexivity.
  - repeat split.
Qed.

(** ** The job endpoints *)

(** X24. [DELETE /jobs/{job_name}] never answers 404: since [remove_job]
    returns [True] in every case, the endpoint answers that the job was
    removed, also for a name that is not registered.  In a state the
    scheduler can reach, [GET /jobs/{job_name}] answers 404 for that name
    afterwards. *)
Theorem delete_endpoint_always_reports_removal (name : string) (s : state) :
  reachable s ->
  exists s' : state,
    api_remove_job name s = (inr ("Job '" ++ name ++ "' removed successfully"), s') /\
    api_get_job_status name s' = (inl (HTTPException 404 "Job not found"), s').
Proof.
  intros Hr. destruct (reachable_sched_ok s Hr) as [_ Hnd].
  exists (snd (remove_job name s)).
  pose proof (remove_job_always_true name s) as Htrue.
  split.
  - unfold api_remove_job. destruct (remove_job name s) as [r s1].
    simpl in Htrue. subst r. reflexivity.
  - assert (Hgone : sget name (scheduled_jobs (snd (remove_job name s))) = None).
    { rewrite remove_job_state.
      destruct (smem name (scheduled_jobs s)) eqn:Hm; cbn [scheduled_jobs with_jobs
        with_lib_jobs].
      - now apply sget_sdel_same.
      - now apply smem_false_sget. }
    unfold api_get_job_status, get_job_status, bind, get_state, ret.
    now rewrite Hgone.
Qed.

(** ** Loading a workflow *)

Lemma validate_workflow_steps_well_formed (wf : workflow) :
  validate_workflow wf = true ->
  exists l, sget "steps" wf = Some (WSteps l) /\ Forall step_well_formed l.
Proof.
  unfold validate_workflow, validate_workflow_log. cbn [first_missing].
  destruct (smem "name" wf); [| discriminate].
  destruct (smem "description" wf); [| discriminate].
  unfold dict_mem at 1.
  destruct (sget "steps" wf) as [[v | l] |]; try discriminate.
  destruct (validate_steps 0 l) eqn:E; [discriminate |].
  apply validate_steps_all in E. eauto.
Qed.

(** X25. [load_workflow] hands out validated workflows only: what it
    returns is what the file holds, it passes [validate_workflow], so its
    steps are a list of well-formed steps; a file that does not pass is
    answered with [ValueError("Loaded workflow is invalid")]. *)
Theorem load_workflow_returns_validated_workflows
    (read_workflow_file : string -> Ext -> (exn + workflow) * Ext)
    (path : string) (s : state) (wf : workflow) (ext' : Ext) :
  read_workflow_file path (s_ext s) = (inr wf, ext') ->
  (validate_workflow wf = true ->
   load_workflow read_workflow_file path s = (inr wf, with_ext ext' s) /\
   exists l, sget "steps" wf = Some (WSteps l) /\ Forall step_well_formed l) /\
  (validate_workflow wf = false ->
   load_workflow read_workflow_file path s
   = (inl (ValueError "Loaded workflow is invalid"), with_ext ext' s)).
Proof.
  intros Hread. unfold load_workflow, bind, read_workflow. rewrite Hread.
  split; intros Hv; rewrite Hv; cbn [negb].
  - split; [reflexivity |]. now apply validate_workflow_steps_well_formed.
  - reflexivity.
Qed.

End Properties.







(** * The properties on concrete runs *)

(** ** C1 *)

Lemma first_failure_ends_run_witness :
  exists (R : run_result) (s' : state),
    @execute_workflow flaky wf_example flaky_start = (inr R, s') /\
    steps_executed R = 1%nat /\
    total_steps R = 3%nat /\
    success R = false /\
    errors R = ["Step 2 failed: Timeout 30000ms exceeded."] /\
    s_calls s'
    = [EStart; ENavigate (SStr "https://example.com");
       EClick (SStr "button.login") (SStr "css"); EClose].
Proof.
  destruct (proj1 (@first_failure_ends_run flaky wf_example
                     [navigate_step] click_step [screenshot_step]
                     flaky_start flaky_s0 flaky_s1 (snd flaky_before) (snd flaky_failed)
                     flaky_r0 (fst flaky_before) (error_of (fst flaky_failed))
                     eq_refl eq_refl eq_refl eq_refl eq_refl eq_refl)
              flaky_closed eq_refl)
    as (R & s' & Hrun & Hn & Ht & Hs & He & Hc & _).
  exists R, s'. repeat split; assumption.
Defined.

(** C1 as stated fails: when the click of step 2 times out and the page
    cannot be closed either, [execute_workflow] raises the error of the close
    and returns no result. *)
Lemma first_failure_raises_when_close_fails :
  ~ @first_failure_returns_result crashed wf_example crashed_start.
Proof.
  intros H.
  destruct (H [navigate_step] click_step [screenshot_step]
              crashed_s0 crashed_s1 (snd crashed_before) (snd crashed_failed)
              crashed_r0 (fst crashed_before) (error_of (fst crashed_failed))
              eq_refl eq_refl eq_refl eq_refl eq_refl eq_refl)
    as (R & s' & Hrun & _).
  assert (Hr : fst (@execute_workflow crashed wf_example crashed_start)
               = inl (Raise "Error" "Target page, context or browser has been closed"))
    by reflexivity.
  rewrite Hrun in Hr. discriminate Hr.
Qed.

(** ** C2 *)

(** C2 as stated fails: with Selenium and no Chrome, starting the browser
    raises, and [execute_workflow] returns a failed result instead of
    raising. *)
Lemma start_error_is_not_raised :
  ~ @start_error_is_raised no_chrome wf_example no_chrome_start.
Proof.
  intros H.
  destruct (H no_chrome_r0 no_chrome_s0 (snd no_chrome_failed)
              (error_of (fst no_chrome_failed)) eq_refl eq_refl) as (s' & Hrun).
  assert (Hr : exists R, fst (@execute_workflow no_chrome wf_example no_chrome_start) = inr R)
    by (eexists; reflexivity).
  destruct Hr as (R & Hr). rewrite Hrun in Hr. discriminate Hr.
Qed.

Lemma start_failure_is_recorded_witness :
  exists (R : run_result) (s' : state),
    @execute_workflow no_chrome wf_example no_chrome_start = (inr R, s') /\
    success R = false /\
    steps_executed R = 0%nat /\
    errors R = ["Workflow execution failed: unknown error: cannot find Chrome binary"] /\
    s_calls s' = [EStart; EClose].
Proof.
  exact (@start_failure_is_recorded no_chrome wf_example
           no_chrome_start no_chrome_s0 (snd no_chrome_failed) no_chrome_closed
           no_chrome_r0 (error_of (fst no_chrome_failed))
           eq_refl eq_refl eq_refl).
Defined.

(** ** C3 *)

(** A type step with a selector passes the loop of the validator whether or
    not it has a text: the selector branch is taken, the text branch is
    never reached. *)
Lemma type_step_passes_without_text (i : nat) (st : step) :
  sget "action" st = Some (SStr "type") ->
  smem "selector" st = true ->
  validate_step i st = None.
Proof. intros Ha Hs. unfold validate_step. rewrite Ha. simpl. now rewrite Hs. Qed.

(** C3, on the code.  The workflow whose only step is a type step with a
    selector and without text passes validation: [validate_workflow] returns
    [True] and logs no error. *)
Theorem type_step_without_text_is_accepted :
  sget "steps" wf_type_without_text
  = Some (WSteps [[("action", SStr "type"); ("selector", SStr "input#q")]]) /\
  smem "text" [("action", SStr "type"); ("selector", SStr "input#q")] = false /\
  validate_workflow_log wf_type_without_text = None /\
  validate_workflow wf_type_without_text = true.
Proof. repeat split. Qed.

(** ** C4 *)

(** C4 as stated fails: the interval job ["poll"] is due (its next run,
    3:30, is before the current time, 4:00); after its dispatched run the
    entry still holds the old next run. *)
Lemma dispatch_leaves_next_run_stale :
  ~ @dispatch_refreshes_entry quiet wf_example "poll" two_jobs.
Proof.
  intros H.
  assert (Hj : exists j, sget "poll" (scheduled_jobs two_jobs) = Some j /\
                         ji_interval_minutes j = Some 30)
    by (eexists; split; reflexivity).
  destruct Hj as (j & Hj & Hi).
  destruct (H j Hj) as (j' & t & Hj' & _ & _ & Ht & Hnext).
  rewrite Hi in Hnext.
  assert (Hstale : forall x,
            sget "poll"
              (scheduled_jobs
                 (snd (@_execute_scheduled_workflow quiet wf_example "poll" two_jobs)))
            = Some x ->
            ji_next_run x = NextRunAt 12600000000).
  { intros x Hx. vm_compute in Hx. inversion Hx. reflexivity. }
  rewrite (Hstale j' Hj') in Hnext. inversion Hnext as [Hnr].
  change (14400000000 <= t) in Ht. unfold MICRO in Hnr. lia.
Qed.

Lemma dispatch_updates_last_run_only_witness :
  exists j',
    sget "poll"
      (scheduled_jobs (snd (@_execute_scheduled_workflow quiet wf_example "poll" two_jobs)))
    = Some j' /\
    ji_next_run j' = NextRunAt 12600000000 /\
    ji_interval_minutes j' = Some 30.
Proof.
  destruct (@dispatch_updates_last_run_only quiet wf_example "poll" two_jobs
              poll_entry eq_refl)
    as (s' & j' & Hrun & Hget & _ & _ & Hnext & _ & Hint & _).
  exists j'. rewrite Hrun. split; [exact Hget |]. split; [exact Hnext | exact Hint].
Defined.

(** ** C5 *)

(** C5 as stated fails: scheduling ["daily"] again, at 10:30, returns the
    name and rewrites the entry. *)
Lemma duplicate_name_is_accepted :
  ~ @duplicate_name_is_rejected quiet wf_example "10:30" "daily" false two_jobs.
Proof.
  intros H. destruct (H eq_refl) as (e & Hrun).
  assert (Hr : fst (@schedule_workflow quiet wf_example "10:30" (Some "daily") false two_jobs)
               = inr "daily") by reflexivity.
  rewrite Hrun in Hr. discriminate Hr.
Qed.

Lemma rescheduling_replaces_entry_witness :
  exists (s' : state) (j : job_info),
    @schedule_workflow quiet wf_example "10:30" (Some "daily") false two_jobs
    = (inr "daily", s') /\
    dict_keys (scheduled_jobs s') = ["daily"; "poll"] /\
    sget "daily" (scheduled_jobs s') = Some j /\
    ji_schedule_time j = Some "10:30" /\
    ji_repeat j = false.
Proof.
  destruct (@rescheduling_replaces_entry quiet wf_example "10:30" "daily" false two_jobs
              ltac:(discriminate) eq_refl eq_refl)
    as (s' & j & Hrun & Hkeys & Hget & _ & Ht & Hr & _).
  exists s', j. repeat split; assumption.
Defined.

(** ** C6 *)

Lemma remove_absent_job_returns_true_witness :
  @remove_job quiet "nonexistent" two_jobs = (inr true, two_jobs) /\
  List.length (scheduled_jobs (snd (@remove_job quiet "nonexistent" two_jobs))) = 2%nat.
Proof.
  destruct (@remove_absent_job_returns_true quiet "nonexistent" two_jobs eq_refl)
    as [Hrun Hjobs].
  split; [exact Hrun | now rewrite Hjobs].
Defined.

(** ** C7 *)

(** At 10:00, a job at 09:00 is next run tomorrow at 09:00; a job at 18:30
    is next run today at 18:30. *)
Lemma daily_next_run_is_today_or_tomorrow_witness :
  (exists name s' j nr,
     @schedule_workflow quiet wf_example "09:00" None true
       (fresh_state no_failure "playwright" 9) = (inr name, s') /\
     sget name (scheduled_jobs s') = Some j /\
     ji_next_run j = NextRunAt nr /\
     time_of nr = 9 * HOUR /\ date_of nr = 1) /\
  (exists name s' j nr,
     @schedule_workflow quiet wf_example "18:30" None true
       (fresh_state no_failure "playwright" 9) = (inr name, s') /\
     sget name (scheduled_jobs s') = Some j /\
     ji_next_run j = NextRunAt nr /\
     time_of nr = 18 * HOUR + 30 * 60 * MICRO /\ date_of nr = 0).
Proof.
  split.
  - destruct (@daily_next_run_is_today_or_tomorrow quiet wf_example "09:00" None true
                (fresh_state no_failure "playwright" 9) 9 0 eq_refl eq_refl eq_refl)
      as (name & s' & j & nr & Hrun & Hget & Hnr & Htime & Hafter & _).
    exists name, s', j, nr. repeat split; try assumption.
    apply Hafter. reflexivity.
  - destruct (@daily_next_run_is_today_or_tomorrow quiet wf_example "18:30" None true
                (fresh_state no_failure "playwright" 9) 18 30 eq_refl eq_refl eq_refl)
      as (name & s' & j & nr & Hrun & Hget & Hnr & Htime & _ & Hbefore).
    exists name, s', j, nr. repeat split; try assumption.
    apply Hbefore. reflexivity.
Defined.

(** ** C8 *)

Lemma two_jobs_reachable : @reachable quiet two_jobs.
Proof.
  unfold two_jobs. apply reach_interval. apply reach_schedule.
  apply reach_init. reflexivity.
Qed.

(** The scripted file system gives back a schedule file as it was
    written. *)
Lemma script_files_read_back
    (p : string) (doc : registry) (e e' : script_ext) (r : scalar) :
  @lib quiet (fs_write_schedule p doc) e = (inr r, e') ->
  @fs_read_schedule quiet p e' = (inr doc, e').
Proof.
  intros H. cbn in H. injection H as _ <-.
  cbn. unfold script_read. cbn [files]. now rewrite sget_sset_same.
Qed.

(** The schedule of [two_jobs], saved and then loaded by a scheduler that
    holds another registry. *)
Lemma save_then_load_keeps_names_and_triggers_witness :
  exists s2 : state,
    @load_schedule quiet "schedules/s.json"
      (with_lib_jobs []
         (with_jobs stale_registry
            (snd (@save_schedule quiet (Some "s.json") two_jobs))))
    = (inr (Some tt), s2) /\
    dict_keys (scheduled_jobs s2) = ["daily"; "poll"] /\
    forall name j,
      sget name (scheduled_jobs two_jobs) = Some j ->
      exists j', sget name (scheduled_jobs s2) = Some j' /\ same_trigger j j'.
Proof.
  exact (@save_then_load_keeps_names_and_triggers quiet (Some "s.json")
           "schedules/s.json" two_jobs _ stale_registry [] two_jobs_reachable
           script_files_read_back eq_refl).
Defined.

(** ** C9 *)

Lemma defaults_of_dispatched_steps_witness :
  s_calls (snd (@_execute_step quiet click_step blank_results started))
  = [EStart; EClick (SStr "button.login") (SStr "css")]
  /\
  s_calls (snd (@_execute_step quiet
                  [("action", SStr "wait"); ("selector", SStr "div.loading")]
                  blank_results started))
  = [EStart; EWait (SStr "div.loading") (SInt 10) (SStr "css")].
Proof.
  split.
  - exact (proj1 (proj1 (@defaults_of_dispatched_steps quiet click_step blank_results
                           started _ eq_refl eq_refl) eq_refl) eq_refl).
  - exact (proj2 (@defaults_of_dispatched_steps quiet
                    [("action", SStr "wait"); ("selector", SStr "div.loading")]
                    blank_results started _ eq_refl eq_refl) eq_refl eq_refl).
Defined.

(** ** C10 *)

Lemma empty_text_is_reported_missing_witness :
  @_execute_step quiet empty_text_step blank_results started
  = (inl (ValueError "Type action requires 'selector' and 'text' parameters"), started)
  /\
  errors (fst (@run_steps quiet 1 [IStep empty_text_step; IStep click_step]
                 blank_results started))
  = ["Step 1 failed: Type action requires 'selector' and 'text' parameters"]
  /\
  success (fst (@run_steps quiet 1 [IStep empty_text_step; IStep click_step]
                  blank_results started))
  = false
  /\
  s_calls (snd (@run_steps quiet 1 [IStep empty_text_step; IStep click_step]
                  blank_results started))
  = [EStart].
Proof.
  destruct (@empty_text_is_reported_missing quiet empty_text_step blank_results started
              eq_refl eq_refl eq_refl) as [Hstep Hrun].
  destruct (Hrun 1%nat [IStep click_step]) as (Hstate & Herr & Hsucc & _).
  split; [exact Hstep |]. split; [exact Herr |]. split; [exact Hsucc |].
  now rewrite Hstate.
Defined.

(** ** Further properties *)

(** *** A run in which every step succeeds *)

Lemma all_steps_succeed_run_witness :
  exists (R : run_result) (s' : state),
    @execute_workflow quiet wf_example quiet_start = (inr R, s') /\
    steps_executed R = 3%nat /\
    total_steps R = 3%nat /\
    success R = true /\
    errors R = [] /\
    screenshots R = [SStr "s.png"].
Proof.
  destruct (@all_steps_succeed_run quiet wf_example
              [navigate_step; click_step; screenshot_step]
              quiet_start quiet_s0 quiet_s1 (snd quiet_done) quiet_closed
              quiet_r0 (fst quiet_done)
              eq_refl eq_refl eq_refl eq_refl eq_refl eq_refl)
    as (R & s' & Hrun & Hn & Ht & Hs & He & Hshots & _).
  exists R, s'. repeat split; assumption.
Defined.


Lemma session_is_opened_and_closed_once_witness :
  exists mid,
    s_calls (snd (@execute_workflow flaky wf_example flaky_start))
    = (s_calls flaky_start ++ EStart :: mid ++ [EClose])%list /\
    Forall is_step_call mid.
Proof.
  exact (@session_is_opened_and_closed_once flaky wf_example flaky_start flaky_s0
           flaky_r0 eq_refl).
Defined.

(** *** A run without Playwright *)

Lemma playwright_start_failure_raises_attribute_error_witness :
  exists s',
    @execute_workflow no_playwright wf_example no_playwright_start
    = (inl (AttributeError
              "'BrowserAutomationEngine' object has no attribute 'playwright'"), s') /\
    s_calls s' = [EStart; EClose].
Proof.
  exact (@playwright_start_failure_raises_attribute_error no_playwright wf_example
           no_playwright_start no_playwright_s0 no_playwright_r0
           (Raise "Error" "Executable doesn't exist; run playwright install")
           (s_ext no_playwright_s0) eq_refl eq_refl eq_refl).
Defined.

(** *** Steps *)

Lemma unknown_action_is_refused_witness :
  @_execute_step quiet hover_step blank_results started
  = (inl (ValueError "Unknown action: hover"), started).
Proof.
  exact (@unknown_action_is_refused quiet hover_step blank_results started eq_refl).
Defined.

Lemma extracted_text_is_stored_witness :
  exists text : string,
    dict_get py_eqb (SStr "text_0")
      (extracted_data (result_of blank_results (fst extracted)))
    = Some (SStr text).
Proof.
  destruct (@extracted_text_is_stored quiet get_text_step blank_results
              (result_of blank_results (fst extracted)) started (snd extracted)
              eq_refl eq_refl) as (text & Hget & _).
  exists text. exact Hget.
Defined.

(** *** Validation *)

Lemma validation_reports_first_bad_step_witness :
  validate_workflow_log wf_click_without_selector
  = Some "Step 1 (click) missing selector" /\
  validate_workflow wf_click_without_selector = false.
Proof.
  apply (@validation_reports_first_bad_step wf_click_without_selector
           [navigate_step] [("action", SStr "click")] [screenshot_step]
           "Step 1 (click) missing selector" eq_refl eq_refl eq_refl).
  - constructor; [| constructor].
    apply (validate_step_well_formed 0). reflexivity.
  - reflexivity.
Defined.

Lemma validated_workflow_raises_only_on_close_witness :
  exists l,
    sget "steps" wf_example = Some (WSteps l) /\
    forall s : @state quiet,
      (exists r0 s0,
         initial_results wf_example s = (inr r0, s0) /\ total_steps r0 = List.length l) /\
      (forall e s', execute_workflow wf_example s = (inl e, s') ->
         exists sf, release sf = (inl e, s')).
Proof.
  exact (@validated_workflow_raises_only_on_close quiet wf_example eq_refl).
Defined.

Lemma present_but_empty_parameter_passes_validation_witness :
  validate_step 0 empty_url_step = None /\
  exists msg,
    @_execute_step quiet empty_url_step blank_results started
    = (inl (ValueError msg), started).
Proof.
  exact (@present_but_empty_parameter_passes_validation quiet empty_url_step
           "navigate" "url" (SStr "") 0 blank_results started
           (or_introl eq_refl) eq_refl eq_refl eq_refl).
Defined.

(** *** Schedules *)

Lemma unnamed_job_can_replace_existing_witness :
  exists (s' : state) (j : job_info),
    @schedule_workflow quiet wf_type_without_text "18:30" None true one_unnamed_left
    = (inr "workflow_2", s') /\
    dict_keys (scheduled_jobs s') = ["workflow_2"] /\
    sget "workflow_2" (scheduled_jobs s') = Some j /\
    ji_workflow j = wf_type_without_text /\
    ji_schedule_time j = Some "18:30".
Proof.
  destruct (@unnamed_job_can_replace_existing quiet wf_type_without_text "18:30" true
              one_unnamed_left eq_refl eq_refl)
    as (s' & j & Hrun & Hkeys & Hget & Hwf & Ht & _).
  exists s', j. repeat split; assumption.
Defined.

Lemma remove_job_deletes_entry_and_triggers_witness :
  exists s' : state,
    @remove_job quiet "poll" two_jobs = (inr true, s') /\
    sget "poll" (scheduled_jobs s') = None /\
    Forall (fun lj => lj_tag lj <> "poll") (lib_jobs s').
Proof.
  destruct (@remove_job_deletes_entry_and_triggers quiet "poll" two_jobs poll_entry
              two_jobs_reachable eq_refl)
    as (s' & Hrun & Hgone & _ & _ & _ & Htags).
  exists s'. repeat split; assumption.
Defined.

Lemma next_run_is_within_a_day_witness :
  exists (nr : Z) (s' : state),
    @_get_next_run_time quiet "09:00" (fresh_state no_failure "playwright" 10)
    = (inr nr, s') /\
    10 * HOUR < nr <= 10 * HOUR + DAY.
Proof.
  exact (@next_run_is_within_a_day quiet "09:00"
           (fresh_state no_failure "playwright" 10) 9 0 eq_refl eq_refl).
Defined.

Lemma next_run_of_unreadable_time_is_a_day_ahead_witness :
  fst (@_get_next_run_time quiet "09:00:30" (fresh_state no_failure "playwright" 10))
  = inr (10 * HOUR + DAY).
Proof.
  rewrite (@next_run_of_unreadable_time_is_a_day_ahead quiet "09:00:30"
             (fresh_state no_failure "playwright" 10)).
  - reflexivity.
  - cbv. discriminate.
Defined.

Lemma failed_read_keeps_the_schedule_witness :
  fst (@load_schedule quiet "missing.json" two_jobs)
  = inl (Raise "FileNotFoundError" "No such file or directory: missing.json") /\
  scheduled_jobs (snd (@load_schedule quiet "missing.json" two_jobs))
  = scheduled_jobs two_jobs.
Proof.
  destruct (@failed_read_keeps_the_schedule quiet "missing.json" two_jobs
              (Raise "FileNotFoundError" "No such file or directory: missing.json")
              (s_ext two_jobs) eq_refl)
    as (Hrun & Hjobs & _).
  split; [now rewrite Hrun | exact Hjobs].
Defined.

Lemma job_ok_nightly_entry : @job_ok quiet ("nightly", nightly_entry).
Proof. split; [discriminate |]. simpl. exists "23:15". split; reflexivity. Qed.

Lemma job_ok_hourly_entry : @job_ok quiet ("hourly", hourly_entry).
Proof. split; [discriminate |]. simpl. repeat split. Qed.

Lemma nightly_hourly_distinct : NoDup ["nightly"; "hourly"].
Proof.
  constructor; [simpl; intros [H | []]; discriminate H |].
  constructor; [simpl; tauto | constructor].
Qed.

Lemma load_stops_at_the_rejected_entry_witness :
  exists s' : state,
    @load_schedule quiet "broken.json" with_files
    = (inl (Raise "ScheduleValueError" "Invalid time format for a daily job"), s') /\
    dict_keys (scheduled_jobs s') = ["nightly"; "hourly"] /\
    map lj_tag (lib_jobs s') = ["nightly"; "hourly"].
Proof.
  exact (@load_stops_at_the_rejected_entry quiet "broken.json" with_files
           (s_ext with_files) [("nightly", nightly_entry); ("hourly", hourly_entry)]
           "broken" rejected_entry [("poll", poll_entry)] "25:00"
           (Raise "ScheduleValueError" "Invalid time format for a daily job")
           eq_refl
           (Forall_cons _ job_ok_nightly_entry
              (Forall_cons _ job_ok_hourly_entry (Forall_nil _)))
           nightly_hourly_distinct eq_refl eq_refl eq_refl).
Defined.

Lemma load_replaces_the_schedule_witness :
  exists s' : state,
    @load_schedule quiet "nightly.json" with_files = (inr (Some tt), s') /\
    dict_keys (scheduled_jobs s') = ["nightly"; "hourly"] /\
    map lj_tag (lib_jobs s') = ["nightly"; "hourly"].
Proof.
  exact (@load_replaces_the_schedule quiet "nightly.json" with_files
           (s_ext with_files) [("nightly", nightly_entry); ("hourly", hourly_entry)]
           eq_refl
           (Forall_cons _ job_ok_nightly_entry
              (Forall_cons _ job_ok_hourly_entry (Forall_nil _)))
           nightly_hourly_distinct).
Defined.

Lemma load_is_stuck_at_unregistered_interval_witness :
  exists s' : state,
    @load_schedule quiet "stuck.json" with_files = (inr None, s') /\
    dict_keys (scheduled_jobs s') = ["nightly"] /\
    map lj_tag (lib_jobs s') = ["nightly"].
Proof.
  exact (@load_is_stuck_at_unregistered_interval quiet "stuck.json" with_files
           (s_ext with_files) [("nightly", nightly_entry)] "stuck" zero_interval_entry
           [("hourly", hourly_entry)] 0 eq_refl
           (Forall_cons _ job_ok_nightly_entry (Forall_nil _))
           (NoDup_cons _ (fun H : In "nightly" [] => H) (NoDup_nil _))
           eq_refl eq_refl).
Defined.

Lemma every_registered_job_has_a_trigger_witness :
  exists lj, In lj (lib_jobs two_jobs) /\ lj_tag lj = "poll".
Proof.
  exact (@every_registered_job_has_a_trigger quiet two_jobs two_jobs_reachable
           "poll" eq_refl).
Defined.

(** *** Engines *)

Lemma selenium_wait_skips_unknown_selector_type_witness :
  @wait_for_element quiet (SStr "q") (SInt 10) (SStr "name") selenium_started started
  = (inr tt,
     with_calls [EStart; EWait (SStr "q") (SInt 10) (SStr "name")] started).
Proof.
  exact (@selenium_wait_skips_unknown_selector_type quiet (SStr "q") (SInt 10)
           (SStr "name") selenium_started started eq_refl eq_refl).
Defined.

Lemma playwright_ignores_selector_type_witness :
  fst (@click_element quiet (SStr "//a") (SStr "xpath") started_engine started)
  = fst (@click_element quiet (SStr "//a") (SStr "css") started_engine started).
Proof.
  exact (proj1 (proj1 (@playwright_ignores_selector_type quiet (SStr "//a") SNone SNone
                         (SStr "xpath") (SStr "css") started_engine started eq_refl))).
Defined.

(** *** Endpoints and files *)

Lemma delete_endpoint_always_reports_removal_witness :
  exists s' : state,
    @api_remove_job quiet "nonexistent" two_jobs
    = (inr "Job 'nonexistent' removed successfully", s') /\
    @api_get_job_status quiet "nonexistent" s'
    = (inl (HTTPException 404 "Job not found"), s').
Proof.
  exact (@delete_endpoint_always_reports_removal quiet "nonexistent" two_jobs
           two_jobs_reachable).
Defined.

Lemma load_workflow_returns_validated_workflows_witness :
  fst (@load_workflow quiet read_example "workflows/w.json" started) = inr wf_example.
Proof.
  destruct (proj1 (@load_workflow_returns_validated_workflows quiet read_example
                     "workflows/w.json" started wf_example (s_ext started) eq_refl)
              eq_refl) as [Hrun _].
  now rewrite Hrun.
Defined.

(** *** Operations that do not depend on a premise *)

Lemma daily_scheduling_fails_exactly_on_rejected_time_witness :
  @schedule_workflow quiet wf_example "25:00" (Some "late") true two_jobs
  = (inl (Raise "ScheduleValueError" "Invalid time format for a daily job"), two_jobs).
Proof.
  exact (proj2 (@daily_scheduling_fails_exactly_on_rejected_time quiet wf_example
                  "25:00" (Some "late") true two_jobs)
           (Raise "ScheduleValueError" "Invalid time format for a daily job") eq_refl).
Defined.

Lemma dispatch_never_raises_witness :
  fst (@_execute_scheduled_workflow quiet wf_example "gone" two_jobs) = inr tt /\
  scheduled_jobs (snd (@_execute_scheduled_workflow quiet wf_example "gone" two_jobs))
  = scheduled_jobs two_jobs.
Proof.
  destruct (@dispatch_never_raises quiet wf_example "gone" two_jobs) as (Hrun & _ & Hreg).
  split; [exact Hrun | exact (Hreg eq_refl)].
Defined.
